(** * hypershell: the server gateway ([bin/server.js])

    A shallow embedding of the connection gateway: the firewall and its
    live-reloaded list of authorized peers, the per-connection protocol
    dispatcher, and the registrations with the shutdown orchestrator.

    JavaScript state (the file system, the console, the closure variable
    [allowed], the registry of graceful-goodbye) is threaded through a
    state-and-exception monad; a thrown [Error] is a [Throw] completion that
    keeps the effects performed before it. *)

From Stdlib Require Import Strings.Byte Strings.Ascii Strings.String.
From stdpp Require Import base option list gmap strings sorting.

(** ** JavaScript values *)

Module Js.

(** A thrown [Error]: the optional [code] property and the message. *)
Record error := Error { code : option string; message : string }.

(** How the evaluation of a function body ends. *)
Inductive completion (A : Type) : Type :=
| Normal (a : A)
| Throw (e : error).
Global Arguments Normal {A} a.
Global Arguments Throw {A} e.

(** A Node [Buffer] is a sequence of bytes. *)
Definition Buffer := list byte.

(** [Buffer.prototype.equals]: same length and the same bytes. *)
Fixpoint Buffer_equals (a b : Buffer) : bool :=
  match a, b with
  | [], [] => true
  | x :: a', y :: b' => Byte.eqb x y && Buffer_equals a' b'
  | _, _ => false
  end.

(** The values a handler's [channel] property is observed to take: an
    object (truthy) or [null] (falsy). *)
Inductive value :=
| Null
| Undefined
| Object (ref : nat).

Definition truthy (v : value) : bool :=
  match v with
  | Object _ => true
  | Null | Undefined => false
  end.

(** [Array.prototype.includes] on an array of strings. *)
Definition includes (xs : list string) (x : string) : bool :=
  existsb (String.eqb x) xs.

End Js.

Export Js.

Global Instance error_eq_dec : EqDecision error.
Proof. solve_decision. Defined.

Global Instance byte_eq_dec : EqDecision byte := Byte.byte_eq_dec.

(** ** The file system, as far as [fs] is used by the server *)

Module Fs.

Inductive node :=
| File (content : string)
| Dir.

Definition ENOENT : error := Error (Some "ENOENT") "no such file or directory".
Definition EEXIST : error := Error (Some "EEXIST") "file already exists".
Definition EISDIR : error := Error (Some "EISDIR") "illegal operation on a directory".
Definition ENOTDIR : error := Error (Some "ENOTDIR") "not a directory".

Definition existsSync (fs : gmap string node) (p : string) : bool :=
  bool_decide (is_Some (fs !! p)).

(** [fs.mkdirSync(p, { recursive: true })]: nothing to do when [p] is a
    directory already, an error when [p] is a file.  The ancestors of [p],
    which the call would create as well, are not tracked. *)
Definition mkdirSync_recursive (fs : gmap string node) (p : string)
  : completion unit * gmap string node :=
  match fs !! p with
  | Some (File _) => (Throw EEXIST, fs)
  | Some Dir => (Normal tt, fs)
  | None => (Normal tt, <[p := Dir]> fs)
  end.

(** [fs.writeFileSync(p, data, { flag: 'wx' })]: exclusive creation; it
    fails when [p] exists, and when the parent [parent] is not a
    directory. *)
Definition writeFileSync_wx (fs : gmap string node) (parent p data : string)
  : completion unit * gmap string node :=
  match fs !! p with
  | Some _ => (Throw EEXIST, fs)
  | None =>
      match fs !! parent with
      | Some Dir => (Normal tt, <[p := File data]> fs)
      | Some (File _) => (Throw ENOTDIR, fs)
      | None => (Throw ENOENT, fs)
      end
  end.

(** [fs.writeFileSync(p, data)], used by the key generator. *)
Definition writeFileSync (fs : gmap string node) (p data : string)
  : completion unit * gmap string node :=
  match fs !! p with
  | Some Dir => (Throw EISDIR, fs)
  | _ => (Normal tt, <[p := File data]> fs)
  end.

(** [fs.readFileSync(p, 'utf8')]. *)
Definition readFileSync (fs : gmap string node) (p : string) : completion string :=
  match fs !! p with
  | Some (File c) => Normal c
  | Some Dir => Throw EISDIR
  | None => Throw ENOENT
  end.

End Fs.

Export Fs.

(** ** tiny-configs *)

Module Configs.

Definition LF : ascii := "010"%char.

(** [String.prototype.split('\n')]: the pieces between line feeds (one
    piece more than there are line feeds). *)
Fixpoint lines_go (cur : string) (s : string) : list string :=
  match s with
  | "" => [String.rev cur]
  | String a s' =>
      if Ascii.eqb a LF then String.rev cur :: lines_go "" s'
      else lines_go (String a cur) s'
  end.
Definition lines (s : string) : list string := lines_go "" s.

Definition starts_with_hash (w : string) : bool :=
  match w with
  | String "#"%char _ => true
  | _ => false
  end.

(** A record line is neither blank nor a comment. *)
Definition is_record (l : string) : bool :=
  match String.words l with
  | [] => false
  | w :: _ => negb (starts_with_hash w)
  end.

(** The lines of a file that carry a record. *)
Definition record_lines (content : string) : list string :=
  filter (λ l, is_record l = true) (lines content).

(** The fields of a record line under [{ split: ' ', length: 2 }]. *)
Definition fields (l : string) : list string := take 2 (String.words l).

Definition parse_line (l : string) : option (list string) :=
  if is_record l then Some (fields l) else None.

(** Modelled from the spec: [configs.parse(list, { split: ' ', length: 2 })]
    of the tiny-configs package, which is not part of the sources.  The
    authorized-peers file is text with one record per line, the fields
    [<public-key> <name>] separated by white space; blank lines and lines
    that begin with [#] are ignored. *)
Definition parse (content : string) : list (list string) :=
  omap parse_line (lines content).

End Configs.

(** ** graceful-goodbye: the registry of teardown actions *)

Module Goodbye.

(** The teardown closures that [server.js] registers. *)
Inductive teardown :=
| UnwatchFirewall                (* () => unwatchFirewall() *)
| DestroyNode                    (* () => node.destroy() *)
| CloseServer                    (* () => server.close() *)
| EndSocket (socket : nat).      (* socket.end(); waitForSocketTermination(socket) *)

(** A registration; [hid] stands for the identity of the handler object. *)
Record handler := Handler { hid : nat; position : nat; action : teardown }.

Record registry := Registry { handlers : list handler; next_hid : nat }.

Definition empty : registry := Registry [] 0.

(** Modelled from the spec: [goodbye(fn, position)] of the graceful-goodbye
    package, which is not part of the sources.  It files the teardown
    action under its priority tier and returns the means to cancel that
    registration, here the identity of the new handler. *)
Definition goodbye (fn : teardown) (pos : nat) (r : registry) : nat * registry :=
  (next_hid r,
   Registry (handlers r ++ [Handler (next_hid r) pos fn]) (S (next_hid r))).

(** Modelled from the spec: the function that [goodbye] returns; it removes
    the registration without running it, and does nothing when the
    registration is gone already. *)
Definition unregister (id : nat) (r : registry) : registry :=
  Registry (filter (λ h, hid h ≠ id) (handlers r)) (next_hid r).

(** *** The drain *)

(** What an observer sees of a drain: an action is started, and later its
    asynchronous work has settled. *)
Inductive event :=
| Begin (id : nat)
| Settled (id : nat).

(** Handlers are filed by ascending position; a tier keeps the order of
    registration. *)
Fixpoint enroll (h : handler) (tiers : list (nat * list nat)) : list (nat * list nat) :=
  match tiers with
  | [] => [(position h, [hid h])]
  | (p, ids) :: rest =>
      if decide (position h < p) then (position h, [hid h]) :: tiers
      else if decide (position h = p) then (p, ids ++ [hid h]) :: rest
      else (p, ids) :: enroll h rest
  end.

(** The file of the handlers: the positions in use, ascending, each with
    the identities registered under it. *)
Definition filed (hs : list handler) : list (nat * list nat) :=
  foldl (λ ts h, enroll h ts) [] hs.

Definition tiers (hs : list handler) : list (list nat) := (filed hs).*2.

(** The state of a drain: the actions of the current tier that are still to
    be started, those that are running, and the tiers behind the barrier. *)
Record drain := Drain { waiting : list nat; running : list nat; later : list (list nat) }.

(** The barrier: the next tier is released once the current one has no
    action left to start and none running. *)
Definition release (d : drain) : drain :=
  match waiting d, running d, later d with
  | [], [], tier :: rest => Drain tier [] rest
  | _, _, _ => d
  end.

Definition remove (id : nat) (ids : list nat) : list nat :=
  filter (λ i, i ≠ id) ids.

Definition step (d : drain) (e : event) : option drain :=
  match e with
  | Begin id =>
      if decide (id ∈ waiting d)
      then Some (Drain (remove id (waiting d)) (id :: running d) (later d))
      else None
  | Settled id =>
      if decide (id ∈ running d)
      then Some (release (Drain (waiting d) (remove id (running d)) (later d)))
      else None
  end.

Fixpoint run (d : drain) (t : list event) : option drain :=
  match t with
  | [] => Some d
  | e :: t' => match step d e with Some d' => run d' t' | None => None end
  end.

Definition start (hs : list handler) : drain := release (Drain [] [] (tiers hs)).

Definition finished (d : drain) : bool :=
  match waiting d, running d, later d with
  | [], [], [] => true
  | _, _, _ => false
  end.

(** Modelled from the spec: the drain of the graceful-goodbye package on a
    shutdown trigger.  Tiers run in ascending order of priority; the actions
    of a tier run concurrently, in any interleaving, and the next tier
    begins only when all of them have settled.  [shutdown hs t] tells
    whether [t] is a complete run of the drain over the handlers [hs]. *)
Definition shutdown (hs : list handler) (t : list event) : bool :=
  match run (start hs) t with
  | Some d => finished d
  | None => false
  end.

(** The schedule that runs the actions one after the other. *)
Definition sequential (hs : list handler) : list event :=
  mjoin ((λ tier, (Begin <$> tier) ++ (Settled <$> tier)) <$> tiers hs).

(** The identities that a drain still has to deal with, and those of the
    tier in progress. *)
Definition pending (d : drain) : list nat := waiting d ++ running d ++ mjoin (later d).
Definition current (d : drain) : list nat := waiting d ++ running d.

(** [id] is filed under position [p]. *)
Definition at_tier (ts : list (nat * list nat)) (p id : nat) : Prop :=
  ∃ ids, (p, ids) ∈ ts ∧ id ∈ ids.

Definition ascending (ts : list (nat * list nat)) : Prop :=
  StronglySorted (λ a b, a.1 < b.1) ts.

End Goodbye.

(** ** protomux and the protocol handlers *)

Module Protomux.

(** The classes of [lib/shell.js], [lib/upload.js], [lib/download.js] and
    [lib/local-tunnel.js]. *)
Inductive handler_class :=
| ShellServer
| UploadServer
| DownloadServer
| LocalTunnelServer.

(** The restrictions of [--tunnel-host] and [--tunnel-port]. *)
Definition restrictions : Type := option (list string) * option (list string).

(** The callbacks that [server.js] pairs differ by the class they
    instantiate and by the options they pass on (the tunnel alone). *)
Record callback := Notify { creates : handler_class; passes : option restrictions }.

(** The pairing table of a multiplexer: for a protocol name, the callback
    to notify. *)
Definition mux := list (string * callback).

(** Modelled from the spec: [mux.pair({ protocol }, notify)] of the protomux
    package, which is not part of the sources.  It declares a binding that
    fires when the remote peer negotiates the sub-protocol of that name. *)
Definition pair (protocol : string) (notify : callback) (m : mux) : mux :=
  (protocol, notify) :: filter (λ b, b.1 ≠ protocol) m.

(** The binding that a negotiation of [protocol] by the remote peer fires. *)
Fixpoint paired (protocol : string) (m : mux) : option callback :=
  match m with
  | [] => None
  | (name, notify) :: rest =>
      if decide (name = protocol) then Some notify else paired protocol rest
  end.

End Protomux.

Export Protomux.

Global Instance handler_class_eq_dec : EqDecision handler_class.
Proof. solve_decision. Defined.

Global Instance callback_eq_dec : EqDecision callback.
Proof. solve_decision. Defined.

Global Instance teardown_eq_dec : EqDecision Goodbye.teardown.
Proof. solve_decision. Defined.

Global Instance handler_eq_dec : EqDecision Goodbye.handler.
Proof. solve_decision. Defined.

Global Instance event_eq_dec : EqDecision Goodbye.event.
Proof. solve_decision. Defined.

(** ** The collaborators outside the repository *)

Record KeyPair := { publicKey : Buffer; secretKey : Buffer }.

(** What the server takes from Node, hypercore-id-encoding, hyperdht and the
    key generator.  A function that can throw gives [None] where it throws. *)
Class Platform := {
  path_resolve : string → string;
  path_dirname : string → string;
  HypercoreId_encode : Buffer → string;
  HypercoreId_decode : string → option Buffer;
  DHT_keyPair : Buffer → KeyPair;
  (** the encoded seed that the key generator draws *)
  keygen_seed : string;
  (** the error with which [server.listen] rejects, if it does *)
  listen_failure : KeyPair → option error
}.

(** ** The state of the process *)

(** The array [PROTOCOLS] of the module and the array that the option parser
    builds for [--protocol] are different objects. *)
Inductive array_ref :=
| ref_PROTOCOLS
| ref_commander.

Global Instance array_ref_eq_dec : EqDecision array_ref.
Proof. solve_decision. Defined.

Record array := Array { ref : array_ref; items : list string }.

(** [a === b] on arrays compares the objects, not their elements. *)
Definition strict_equal (a b : array) : bool := bool_decide (ref a = ref b).

Record options := Options {
  f : string;
  firewall : string;
  disableFirewall : bool;
  protocol : option (list string);
  tunnelHost : option (list string);
  tunnelPort : option (list string);
  testnet : bool
}.

(** The closure variable [allowed] of [cmd]: a boolean, or the array of the
    authorized public keys. *)
Inductive allowed_value :=
| ABool (b : bool)
| AList (keys : list Buffer).

(** The listeners that [onconnection] installs on a socket. *)
Inductive listener :=
| MirrorEnd                      (* () => socket.end() *)
| LogClose                       (* () => console.log('Connection closed', ...) *)
| ReportError                    (* function (error) { ... } *)
| Unregister (id : nat).         (* () => unregisterSocket() *)

Record socket := Socket {
  remotePublicKey : Buffer;
  listeners : list (string * bool * listener);   (* event, once, listener *)
  keepAlive : option nat;
  ended : bool;
  muxed : option mux
}.

(** What the dispatcher does to the protocol handlers. *)
Inductive act :=
| Construct (instance : nat) (c : handler_class) (socket : nat) (passed : option restrictions)
| Open (instance : nat).

Global Instance act_eq_dec : EqDecision act.
Proof. solve_decision. Defined.

Global Instance listener_eq_dec : EqDecision listener.
Proof. solve_decision. Defined.

Record world := World {
  files : gmap string node;
  fs_calls : list (string * string);            (* the calls of [fs]: function, path *)
  stdout : list string;
  stderr : list string;
  registry : Goodbye.registry;
  watching : list string;
  allowed : allowed_value;
  dht : option bool;
  server : option (option (array * options));
  listening : option KeyPair;
  sockets : gmap nat socket;
  acts : list act
}.

Definition with_files (x : gmap string node) (w : world) : world :=
  World x (fs_calls w) (stdout w) (stderr w) (registry w) (watching w) (allowed w)
        (dht w) (server w) (listening w) (sockets w) (acts w).
Definition with_fs_calls (x : list (string * string)) (w : world) : world :=
  World (files w) x (stdout w) (stderr w) (registry w) (watching w) (allowed w) (dht w)
        (server w) (listening w) (sockets w) (acts w).
Definition with_stdout (x : list string) (w : world) : world :=
  World (files w) (fs_calls w) x (stderr w) (registry w) (watching w) (allowed w)
        (dht w) (server w) (listening w) (sockets w) (acts w).
Definition with_stderr (x : list string) (w : world) : world :=
  World (files w) (fs_calls w) (stdout w) x (registry w) (watching w) (allowed w)
        (dht w) (server w) (listening w) (sockets w) (acts w).
Definition with_registry (x : Goodbye.registry) (w : world) : world :=
  World (files w) (fs_calls w) (stdout w) (stderr w) x (watching w) (allowed w) (dht w)
        (server w) (listening w) (sockets w) (acts w).
Definition with_watching (x : list string) (w : world) : world :=
  World (files w) (fs_calls w) (stdout w) (stderr w) (registry w) x (allowed w) (dht w)
        (server w) (listening w) (sockets w) (acts w).
Definition with_allowed (x : allowed_value) (w : world) : world :=
  World (files w) (fs_calls w) (stdout w) (stderr w) (registry w) (watching w) x (dht w)
        (server w) (listening w) (sockets w) (acts w).
Definition with_dht (x : option bool) (w : world) : world :=
  World (files w) (fs_calls w) (stdout w) (stderr w) (registry w) (watching w)
        (allowed w) x (server w) (listening w) (sockets w) (acts w).
Definition with_server (x : option (option (array * options))) (w : world) : world :=
  World (files w) (fs_calls w) (stdout w) (stderr w) (registry w) (watching w)
        (allowed w) (dht w) x (listening w) (sockets w) (acts w).
Definition with_listening (x : option KeyPair) (w : world) : world :=
  World (files w) (fs_calls w) (stdout w) (stderr w) (registry w) (watching w)
        (allowed w) (dht w) (server w) x (sockets w) (acts w).
Definition with_sockets (x : gmap nat socket) (w : world) : world :=
  World (files w) (fs_calls w) (stdout w) (stderr w) (registry w) (watching w)
        (allowed w) (dht w) (server w) (listening w) x (acts w).
Definition with_acts (x : list act) (w : world) : world :=
  World (files w) (fs_calls w) (stdout w) (stderr w) (registry w) (watching w)
        (allowed w) (dht w) (server w) (listening w) (sockets w) x.

(** A process that has just started, over the file system [fs]. *)
Definition boot (fs : gmap string node) : world :=
  World fs [] [] [] Goodbye.empty [] (ABool false) None None None ∅ [].

(** ** The monad of effects *)

Definition M (A : Type) : Type := world → completion A * world.

Definition ret {A} (a : A) : M A := λ w, (Normal a, w).

Definition bind {A B} (m : M A) (k : A → M B) : M B :=
  λ w, match m w with
       | (Normal a, w') => k a w'
       | (Throw e, w') => (Throw e, w')
       end.

Definition throw {A} (e : error) : M A := λ w, (Throw e, w).

(** [try { m } catch (error) { h error }] *)
Definition try_catch {A} (m : M A) (h : error → M A) : M A :=
  λ w, match m w with
       | (Normal a, w') => (Normal a, w')
       | (Throw e, w') => h e w'
       end.

Definition gets {A} (proj : world → A) : M A := λ w, (Normal (proj w), w).
Definition modify (upd : world → world) : M unit := λ w, (Normal tt, upd w).

Declare Scope js_scope.
Delimit Scope js_scope with js.
Notation "x <- m ;; k" := (bind m (λ x, k))
  (at level 100, m at next level, right associativity) : js_scope.
Notation "m ;; k" := (bind m (λ _, k))
  (at level 100, right associativity) : js_scope.
Local Open Scope js_scope.

(** [when c m]: [if (c) { m }]. *)
Definition when (c : bool) (m : M unit) : M unit := if c then m else ret tt.

(** ** Primitive effects *)

Definition console_log (line : string) : M unit :=
  modify (λ w, with_stdout (stdout w ++ [line]) w).

Definition console_error (line : string) : M unit :=
  modify (λ w, with_stderr (stderr w ++ [line]) w).

Definition fs_called (fn p : string) (w : world) : world :=
  with_fs_calls (fs_calls w ++ [(fn, p)]) w.

(** Lifts an operation of [Fs] that changes the file system. *)
Definition on_files {A} (fn p : string)
    (op : gmap string node → completion A * gmap string node) : M A :=
  λ w, let '(r, fs) := op (files w) in (r, with_files fs (fs_called fn p w)).

Definition fs_existsSync (p : string) : M bool :=
  λ w, (Normal (existsSync (files w) p), fs_called "existsSync" p w).

Definition fs_readFileSync (p : string) : M string :=
  λ w, (readFileSync (files w) p, fs_called "readFileSync" p w).

(** [goodbye(fn, position)], on the registry of the process. *)
Definition goodbye (fn : Goodbye.teardown) (pos : nat) : M nat :=
  λ w, let '(id, r) := Goodbye.goodbye fn pos (registry w) in
       (Normal id, with_registry r w).

Definition unregister (id : nat) : M unit :=
  modify (λ w, with_registry (Goodbye.unregister id (registry w)) w).

(** [readFile(filename, callback)] of read-file-live: from now on the
    callback is run with the content of the file, once to begin with and
    again after every change (see [watcher_callback]). *)
Definition readFile_live (filename : string) : M unit :=
  modify (λ w, with_watching (watching w ++ [filename]) w).

Definition on_socket (s : nat) (upd : socket → socket) : M unit :=
  modify (λ w, with_sockets (alter upd s (sockets w)) w).

Definition socket_on (s : nat) (ev : string) (l : listener) : M unit :=
  on_socket s (λ k, Socket (remotePublicKey k) (listeners k ++ [(ev, false, l)])
                           (keepAlive k) (ended k) (muxed k)).

Definition socket_once (s : nat) (ev : string) (l : listener) : M unit :=
  on_socket s (λ k, Socket (remotePublicKey k) (listeners k ++ [(ev, true, l)])
                           (keepAlive k) (ended k) (muxed k)).

Definition socket_setKeepAlive (s : nat) (ms : nat) : M unit :=
  on_socket s (λ k, Socket (remotePublicKey k) (listeners k) (Some ms) (ended k) (muxed k)).

Definition socket_end (s : nat) : M unit :=
  on_socket s (λ k, Socket (remotePublicKey k) (listeners k) (keepAlive k) true (muxed k)).

(** [new Protomux(socket)] *)
Definition new_Protomux (s : nat) : M unit :=
  on_socket s (λ k, Socket (remotePublicKey k) (listeners k) (keepAlive k) (ended k) (Some [])).

(** [mux.pair({ protocol }, notify)] on the multiplexer of the socket. *)
Definition mux_pair (s : nat) (protocol : string) (notify : callback) : M unit :=
  on_socket s (λ k, Socket (remotePublicKey k) (listeners k) (keepAlive k) (ended k)
                           (pair protocol notify <$> muxed k)).

Definition LF : string := String Configs.LF "".

(** The white space of ECMAScript, WhiteSpace and LineTerminator.  A string
    read with ['utf8'] is held here as the bytes of the file, so a white
    space is the UTF-8 of its code point: one byte for U+0009 to U+000D and
    U+0020 ([Ascii.is_space]), two for U+00A0, three for U+1680, U+2000 to
    U+200A, U+2028, U+2029, U+202F, U+205F, U+3000 and U+FEFF. *)
Definition is_space2 (a b : ascii) : bool :=
  ((N_of_ascii a =? 194) && (N_of_ascii b =? 160))%N.

Definition is_space3 (a b c : ascii) : bool :=
  let x := N_of_ascii a in
  let y := N_of_ascii b in
  let z := N_of_ascii c in
  ((x =? 225) && (y =? 154) && (z =? 128)
   || (x =? 226) && (y =? 128) &&
      ((128 <=? z) && (z <=? 138) || (z =? 168) || (z =? 169) || (z =? 175))
   || (x =? 226) && (y =? 129) && (z =? 159)
   || (x =? 227) && (y =? 128) && (z =? 128)
   || (x =? 239) && (y =? 187) && (z =? 191))%N.

(** The string without the white space at its front.  With [back] the
    string is one that is read from its end, in which the bytes of a
    character come last byte first. *)
Fixpoint strip (back : bool) (s : string) : string :=
  match s with
  | String a s1 =>
      if Ascii.is_space a then strip back s1
      else
        match s1 with
        | String b s2 =>
            if (if back then is_space2 b a else is_space2 a b) then strip back s2
            else
              match s2 with
              | String c s3 =>
                  if (if back then is_space3 c b a else is_space3 a b c)
                  then strip back s3
                  else s
              | "" => s
              end
        | "" => s
        end
  | "" => ""
  end.

(** [String.prototype.trim]: the white space at both ends is stripped. *)
Definition trim (s : string) : string :=
  String.rev (strip true (String.rev (strip false s))).

(** ** [bin/server.js] *)

Definition PROTOCOLS : array :=
  Array ref_PROTOCOLS ["shell"; "upload"; "download"; "tunnel"].

Definition TypeError_not_iterable : error := Error None "allowed is not iterable".
Definition Invalid_key : error := Error None "Invalid Hypercore key".

(** The argument of [readAuthorizedPeers]: a file name (a string), or the
    content that read-file-live hands to its callback (a buffer). *)
Inductive file_arg :=
| Filename (p : string)
| Content (buf : string).

(** What reaches the process from outside once [cmd] has run. *)
Inductive input :=
| FileChange (buf : string)                                (* read-file-live reports the content *)
| Handshake (s : nat) (remote : Buffer)                    (* a peer connects, on a new socket *)
| SocketEmits (s : nat) (ev : string) (e : option error)   (* a socket emits an event *)
| Negotiate (s : nat) (protocol : string) (channel : value).
    (* the peer negotiates a sub-protocol; [channel] is what the [channel]
       property of a handler made for it holds *)

Section Server.

Context `{Platform}.

(** [HypercoreId.decode(id)], which throws on what is not an encoded key;
    [undefined] (an absent first field) is not one. *)
Definition decode_key (id : option string) : M Buffer :=
  match id ≫= HypercoreId_decode with
  | Some key => ret key
  | None => throw Invalid_key
  end.

(** [records.map(v => HypercoreId.decode(v[0]))] *)
Fixpoint map_decode (records : list (list string)) : M (list Buffer) :=
  match records with
  | [] => ret []
  | v :: rest =>
      key <- decode_key (head v) ;;
      keys <- map_decode rest ;;
      ret (key :: keys)
  end.

Definition default_firewall : string := "# <public key> <name>" +:+ LF.

Definition readAuthorizedPeers (filename : file_arg) : M (list Buffer) :=
  match filename with
  | Filename p =>
      present <- fs_existsSync p ;;
      when (negb present)
        (console_log ("Notice: creating default firewall " +:+ p) ;;
         on_files "mkdirSync" (path_dirname p)
           (λ fs, mkdirSync_recursive fs (path_dirname p)) ;;
         on_files "writeFileSync" p
           (λ fs, writeFileSync_wx fs (path_dirname p) p default_firewall))
  | Content _ => ret tt
  end ;;
  try_catch
    (list <- match filename with
             | Filename p => fs_readFileSync p
             | Content buf => ret buf
             end ;;
     map_decode (Configs.parse list))
    (λ error,
       if decide (code error = Some "ENOENT") then ret [] else throw error).

(** The loop of [onFirewall]: [Some false] when an iteration returns. *)
Fixpoint onFirewall_scan (remote : Buffer) (keys : list Buffer) : M (option bool) :=
  match keys with
  | [] => ret None
  | publicKey :: rest =>
      if Buffer_equals remote publicKey then
        console_log ("Firewall allowed: " +:+ HypercoreId_encode remote) ;;
        ret (Some false)
      else onFirewall_scan remote rest
  end.

(** The firewall hook of the server: [true] rejects the peer. *)
Definition onFirewall (remote : Buffer) : M bool :=
  a <- gets allowed ;;
  match a with
  | ABool true =>
      console_log ("Firewall allowed: " +:+ HypercoreId_encode remote) ;;
      ret false
  | ABool false => throw TypeError_not_iterable
  | AList keys =>
      returned <- onFirewall_scan remote keys ;;
      match returned with
      | Some r => ret r
      | None =>
          console_log ("Firewall denied: " +:+ HypercoreId_encode remote) ;;
          ret true
      end
  end.

(** The callback given to read-file-live:
    [function (buf) { allowed = readAuthorizedPeers(buf) }]. *)
Definition watcher_callback (buf : string) : M unit :=
  keys <- readAuthorizedPeers (Content buf) ;;
  modify (with_allowed (AList keys)).

(** Modelled from the spec: [keygen({ f })] of [bin/keygen.js], which is not
    among the sources; it ensures that a fresh seed exists at the path. *)
Definition keygen (keyfile : string) : M unit :=
  on_files "writeFileSync" keyfile (λ fs, writeFileSync fs keyfile keygen_seed).

Definition onconnection (protocols : array) (o : options) (s : nat) : M unit :=
  socket_on s "end" MirrorEnd ;;
  socket_on s "close" LogClose ;;
  socket_on s "error" ReportError ;;
  socket_setKeepAlive s 5000 ;;
  unregisterSocket <- goodbye (Goodbye.EndSocket s) 1 ;;
  socket_once s "close" (Unregister unregisterSocket) ;;
  new_Protomux s ;;
  when (includes (items protocols) "shell")
    (mux_pair s "hypershell" (Notify ShellServer None)) ;;
  when (includes (items protocols) "upload")
    (mux_pair s "hypershell-upload" (Notify UploadServer None)) ;;
  when (includes (items protocols) "download")
    (mux_pair s "hypershell-download" (Notify DownloadServer None)) ;;
  when (includes (items protocols) "tunnel")
    (mux_pair s "hypershell-tunnel-local"
       (Notify LocalTunnelServer (Some (tunnelHost o, tunnelPort o)))).

Definition cmd (o : options) : M unit :=
  let keyfile := path_resolve (f o) in
  let firewall := path_resolve (firewall o) in
  let protocols := match protocol o with
                   | Some names => Array ref_commander names
                   | None => PROTOCOLS
                   end in
  present <- fs_existsSync keyfile ;;
  when (negb present) (keygen keyfile) ;;
  modify (with_allowed (ABool (disableFirewall o))) ;;
  when (negb (disableFirewall o))
    (keys <- readAuthorizedPeers (Filename firewall) ;;
     modify (with_allowed (AList keys)) ;;
     readFile_live firewall ;;
     goodbye Goodbye.UnwatchFirewall 3 ;;
     ret tt) ;;
  text <- fs_readFileSync keyfile ;;
  seed <- decode_key (Some (trim text)) ;;
  let keyPair := DHT_keyPair seed in
  modify (with_dht (Some (testnet o))) ;;
  goodbye Goodbye.DestroyNode 3 ;;
  modify (with_server (Some None)) ;;
  goodbye Goodbye.CloseServer 2 ;;
  modify (with_server (Some (Some (protocols, o)))) ;;
  match listen_failure keyPair with
  | Some e => throw e
  | None => modify (with_listening (Some keyPair))
  end ;;
  (if strict_equal protocols PROTOCOLS then
     console_log "To connect to this shell, on another computer run:" ;;
     console_log ("hypershell " +:+ HypercoreId_encode (publicKey keyPair))
   else
     console_log "Running server with restricted protocols" ;;
     console_log ("Server key: " +:+ HypercoreId_encode (publicKey keyPair))) ;;
  console_log "".

(** *** After [cmd]: the callbacks at work *)

(** The body of the callbacks paired in [onconnection], for example
    [const shell = new ShellServer({ node, socket, mux });
     if (!shell.channel) return; shell.open()]. *)
Definition notify (cb : callback) (s : nat) (channel : value) : M unit :=
  instance <- gets (λ w, length (acts w)) ;;
  modify (λ w, with_acts (acts w ++ [Construct instance (creates cb) s (passes cb)]) w) ;;
  if negb (truthy channel) then ret tt
  else modify (λ w, with_acts (acts w ++ [Open instance]) w).

(** The body of a listener, for an event that carries [e]: an ['error']
    carries the [Error] that the stream reports, the other events nothing. *)
Definition run_listener (s : nat) (e : option error) (l : listener) : M unit :=
  match l with
  | MirrorEnd => socket_end s
  | LogClose =>
      k <- gets (λ w, sockets w !! s) ;;
      console_log ("Connection closed " +:+
                   HypercoreId_encode (from_option remotePublicKey [] k))
  | ReportError =>
      match e with
      | Some error =>
          if decide (code error = Some "ECONNRESET" ∨ code error = Some "ETIMEDOUT")
          then ret tt
          else console_error (default "undefined" (code error) +:+ " " +:+ message error)
      | None => ret tt
      end
  | Unregister id => unregister id
  end.

Fixpoint run_listeners (s : nat) (e : option error) (ls : list listener) : M unit :=
  match ls with
  | [] => ret tt
  | l :: rest => run_listener s e l ;; run_listeners s e rest
  end.

(** [socket.emit(ev, e)]: the listeners of the event run in the order of
    their registration; those registered with [once] are removed. *)
Definition emit (s : nat) (ev : string) (e : option error) : M unit :=
  k <- gets (λ w, sockets w !! s) ;;
  match k with
  | None => ret tt
  | Some k =>
      on_socket s (λ k, Socket (remotePublicKey k)
                          (filter (λ l, ¬ (l.1.1 = ev ∧ l.1.2 = true)) (listeners k))
                          (keepAlive k) (ended k) (muxed k)) ;;
      run_listeners s e (snd <$> filter (λ l, l.1.1 = ev) (listeners k))
  end.

Definition react (i : input) : M unit :=
  match i with
  | FileChange buf =>
      ws <- gets watching ;;
      match ws with
      | [] => ret tt
      | _ :: _ => watcher_callback buf
      end
  | Handshake s remote =>
      srv <- gets server ;;
      up <- gets listening ;;
      known <- gets (λ w, sockets w !! s) ;;
      match srv, up, known with
      | Some (Some (protocols, o)), Some _, None =>
          rejected <- onFirewall remote ;;
          if (rejected : bool) then ret tt
          else
            modify (λ w, with_sockets (<[s := Socket remote [] None false None]> (sockets w)) w) ;;
            onconnection protocols o s
      | _, _, _ => ret tt
      end
  | SocketEmits s ev e => emit s ev e
  | Negotiate s protocol channel =>
      k <- gets (λ w, sockets w !! s) ;;
      match (k ≫= muxed) ≫= paired protocol with
      | Some cb => notify cb s channel
      | None => ret tt
      end
  end.

(** The process reacts to its inputs one after the other; an exception that
    escapes a callback ends it. *)
Fixpoint serve (inputs : list input) : M unit :=
  match inputs with
  | [] => ret tt
  | i :: rest => react i ;; serve rest
  end.

End Server.


(** ** Vocabulary of the properties *)

Section Vocabulary.

Context `{Platform}.

(** The first field of a line of the authorized-peers file: the public key,
    still encoded. *)
Definition line_key (l : string) : option string := head (Configs.fields l).

(** The decoded public key of a line, if it decodes. *)
Definition key_of_line (l : string) : option Buffer :=
  line_key l ≫= HypercoreId_decode.

(** The keys of the records of a file, in order; [None] when one of them
    does not decode. *)
Definition keys_of (content : string) : option (list Buffer) :=
  mapM key_of_line (Configs.record_lines content).

Definition wp {A} (m : M A) (Q : completion A → world → Prop) (w : world) : Prop :=
  Q (m w).1 (m w).2.

(** [console.log(line)], as a change of the state. *)
Definition logged (line : string) (w : world) : world :=
  with_stdout (stdout w ++ [line]) w.

(** The fields that only [cmd] and the firewall set. *)
Definition quiet (w w' : world) : Prop :=
  files w' = files w ∧ fs_calls w' = fs_calls w ∧ watching w' = watching w ∧
  allowed w' = allowed w ∧ dht w' = dht w ∧ server w' = server w ∧
  listening w' = listening w ∧ acts w' = acts w.

(** A socket that kept its peer, its multiplexer and its listeners. *)
Definition same_peer (k k' : socket) : Prop :=
  remotePublicKey k' = remotePublicKey k ∧ muxed k' = muxed k ∧ listeners k' = listeners k.

(** The listeners that an event calls, and those that stay after it. *)
Definition called (ev : string) (ls : list (string * bool * listener)) : list listener :=
  snd <$> filter (λ l, l.1.1 = ev) ls.
Definition kept (ev : string) (ls : list (string * bool * listener))
  : list (string * bool * listener) :=
  filter (λ l, ¬ (l.1.1 = ev ∧ l.1.2 = true)) ls.

(** The handlers that a run of listeners leaves registered. *)
Definition spared (ls : list listener) (hs : list Goodbye.handler) : list Goodbye.handler :=
  filter (λ h, Unregister (Goodbye.hid h) ∉ ls) hs.

(** The pairing table that [onconnection] builds for a list of enabled
    protocol names. *)
Definition bindings_of (protocols : list string) (o : options) : mux :=
  let m := [] in
  let m := if includes protocols "shell"
           then pair "hypershell" (Notify ShellServer None) m else m in
  let m := if includes protocols "upload"
           then pair "hypershell-upload" (Notify UploadServer None) m else m in
  let m := if includes protocols "download"
           then pair "hypershell-download" (Notify DownloadServer None) m else m in
  if includes protocols "tunnel"
  then pair "hypershell-tunnel-local"
            (Notify LocalTunnelServer (Some (tunnelHost o, tunnelPort o))) m
  else m.

(** A socket after [onconnection]. *)
Definition connected (bindings : mux) (unregisterSocket : nat) (k : socket) : socket :=
  Socket (remotePublicKey k)
         (listeners k ++ [("end", false, MirrorEnd); ("close", false, LogClose);
                          ("error", false, ReportError);
                          ("close", true, Unregister unregisterSocket)])
         (Some 5000) (ended k) (Some bindings).

(** The state after a peer that the firewall let in was connected. *)
Definition accept (protocols : array) (o : options) (s : nat) (remote : Buffer)
    (w : world) : world :=
  with_sockets
    (<[s := connected (bindings_of (items protocols) o) (Goodbye.next_hid (registry w))
                      (Socket remote [] None false None)]> (sockets w))
    (with_registry (Goodbye.goodbye (Goodbye.EndSocket s) 1 (registry w)).2
       (logged ("Firewall allowed: " +:+ HypercoreId_encode remote) w)).

(** The state after a handler was made for a negotiated protocol. *)
Definition dispatch (cb : callback) (s : nat) (channel : value) (w : world) : world :=
  with_acts (acts w ++ Construct (length (acts w)) (creates cb) s (passes cb) ::
                       (if truthy channel then [Open (length (acts w))] else [])) w.

(** The steps of the process once [cmd] has run. *)
Inductive moves (w : world) : world → Prop :=
| moves_stay : moves w w
| moves_reload (keys : list Buffer) :
    watching w ≠ [] → moves w (with_allowed (AList keys) w)
| moves_reject (remote : Buffer) :
    moves w (logged ("Firewall denied: " +:+ HypercoreId_encode remote) w)
| moves_accept (protocols : array) (o : options) (s : nat) (remote : Buffer) :
    server w = Some (Some (protocols, o)) → sockets w !! s = None →
    moves w (accept protocols o s remote w)
| moves_emit (s : nat) (ev : string) (G : socket → socket) (w' : world) :
    quiet w w' →
    registry w' =
      Goodbye.Registry
        (spared (default [] (called ev ∘ listeners <$> sockets w !! s))
                (Goodbye.handlers (registry w)))
        (Goodbye.next_hid (registry w)) →
    sockets w' = alter G s (sockets w) →
    (∀ k, remotePublicKey (G k) = remotePublicKey k ∧ muxed (G k) = muxed k ∧
          listeners (G k) = kept ev (listeners k)) →
    moves w w'
| moves_dispatch (s : nat) (k : socket) (m : mux) (protocol : string) (cb : callback)
    (channel : value) :
    sockets w !! s = Some k → muxed k = Some m → paired protocol m = Some cb →
    moves w (dispatch cb s channel w).

(** The tier under which [server.js] registers a teardown action. *)
Definition tier_of (a : Goodbye.teardown) : nat :=
  match a with
  | Goodbye.EndSocket _ => 1
  | Goodbye.CloseServer => 2
  | Goodbye.DestroyNode | Goodbye.UnwatchFirewall => 3
  end.

(** The registry holds each handler once, under the tier of its action. *)
Definition orderly (r : Goodbye.registry) : Prop :=
  NoDup (Goodbye.hid <$> Goodbye.handlers r) ∧
  Forall (λ h, Goodbye.hid h < Goodbye.next_hid r ∧
               Goodbye.position h = tier_of (Goodbye.action h)) (Goodbye.handlers r).

(** What the firewall goes by, for a run with or without enforcement. *)
Definition firewall_state (disabled : bool) (w : world) : Prop :=
  if disabled then allowed w = ABool true ∧ watching w = []
  else ∃ keys, allowed w = AList keys.

(** Every teardown action of a socket has its cancellation waiting on the
    ['close'] event of that socket. *)
Definition covered (w : world) : Prop :=
  ∀ h s, h ∈ Goodbye.handlers (registry w) → Goodbye.action h = Goodbye.EndSocket s →
    ∃ k, sockets w !! s = Some k ∧
         ("close", true, Unregister (Goodbye.hid h)) ∈ listeners k.


(** The calls of [fs] and the state of the files aside, reading the
    authorized peers leaves the process as it is. *)
Definition touches_files_only (w w' : world) : Prop :=
  stderr w' = stderr w ∧ registry w' = registry w ∧ watching w' = watching w ∧
  allowed w' = allowed w ∧ dht w' = dht w ∧ server w' = server w ∧
  listening w' = listening w ∧ sockets w' = sockets w ∧ acts w' = acts w.

(** The array that [cmd] takes the protocol names from. *)
Definition protocols_of (o : options) : array :=
  match protocol o with
  | Some names => Array ref_commander names
  | None => PROTOCOLS
  end.

(** The sub-protocols of [onconnection]: the name in the configuration, the
    protocol name on the multiplexer, and the class of the handler. *)
Definition PAIRINGS : list (string * string * handler_class) :=
  [("shell", "hypershell", ShellServer);
   ("upload", "hypershell-upload", UploadServer);
   ("download", "hypershell-download", DownloadServer);
   ("tunnel", "hypershell-tunnel-local", LocalTunnelServer)].

(** Sockets are multiplexed, and handlers made, for the enabled protocols
    only. *)
Definition mux_sound (enabled : list string) (w : world) : Prop :=
  (∀ ps o, server w = Some (Some (ps, o)) → items ps = enabled) ∧
  (∀ s k m, sockets w !! s = Some k → muxed k = Some m → ∃ o, m = bindings_of enabled o) ∧
  (∀ i c s x, Construct i c s x ∈ acts w →
     ∃ o protocol cb, paired protocol (bindings_of enabled o) = Some cb ∧ creates cb = c).

(** What the callbacks leave as [cmd] made it: the file system and the
    calls of [fs], the watcher, the node, the server and its listening. *)
Definition settled (w w' : world) : Prop :=
  files w' = files w ∧ fs_calls w' = fs_calls w ∧ watching w' = watching w ∧
  dht w' = dht w ∧ server w' = server w ∧ listening w' = listening w.

(** A run that never looks at the authorized-peers file [fw]. *)
Definition untouched (fw : string) (fs : gmap string node) (w : world) : Prop :=
  files w !! fw = fs !! fw ∧ Forall (λ c, c.2 ≠ fw) (fs_calls w) ∧ watching w = [] ∧
  (∀ h, h ∈ Goodbye.handlers (registry w) → Goodbye.action h ≠ Goodbye.UnwatchFirewall) ∧
  allowed w = ABool true.

End Vocabulary.


(** ** A platform to run the server on

    Keys are written in hexadecimal, 64 digits for the 32 bytes of a key;
    paths are POSIX paths. *)

Module Demo.

(** The hexadecimal digit of a number below sixteen. *)
Definition hex_digit (n : N) : ascii :=
  ascii_of_N (if (n <? 10)%N then 48 + n else 87 + n).

(** The number that a hexadecimal digit, in lower case, stands for. *)
Definition hex_value (a : ascii) : option N :=
  let c := N_of_ascii a in
  if ((48 <=? c) && (c <=? 57))%N then Some (c - 48)%N
  else if ((97 <=? c) && (c <=? 102))%N then Some (c - 87)%N
  else None.

Fixpoint to_hex (b : Buffer) : string :=
  match b with
  | [] => ""
  | x :: rest =>
      String (hex_digit (Byte.to_N x / 16)) (String (hex_digit (Byte.to_N x mod 16)) (to_hex rest))
  end.

Fixpoint of_hex (s : string) : option Buffer :=
  match s with
  | "" => Some []
  | String hi (String lo rest) =>
      h ← hex_value hi; l ← hex_value lo; x ← Byte.of_N (16 * h + l);
      (x ::.) <$> of_hex rest
  | String _ "" => None
  end.

Definition key_of_hex (s : string) : option Buffer :=
  b ← of_hex s; if decide (length b = 32) then Some b else None.

Fixpoint drop_last_segment (rev_path : string) : string :=
  match rev_path with
  | "" => ""
  | String a rest => if Ascii.eqb a "/" then rest else drop_last_segment rest
  end.

Definition dirname (p : string) : string :=
  match String.rev (drop_last_segment (String.rev p)) with
  | "" => "/"
  | d => d
  end.

#[export] Instance platform : Platform := {|
  path_resolve p := p;
  path_dirname := dirname;
  HypercoreId_encode := to_hex;
  HypercoreId_decode := key_of_hex;
  DHT_keyPair seed := {| publicKey := rev seed; secretKey := seed |};
  keygen_seed := to_hex (replicate 32 Byte.x07);
  listen_failure _ := None
|}.

Definition alice : Buffer := replicate 32 Byte.x0a.
Definition bob : Buffer := replicate 32 Byte.x0b.
Definition carol : Buffer := replicate 32 Byte.x0c.

Definition peers_file : string :=
  "# <public key> <name>" +:+ LF +:+
  to_hex alice +:+ " alice" +:+ LF +:+
  LF +:+
  to_hex bob +:+ " bob" +:+ LF.

Definition home : gmap string node :=
  {[ "/home/op/.hypershell" := Dir;
     "/home/op/.hypershell/peer" := File (to_hex (replicate 32 Byte.x01) +:+ LF);
     "/home/op/.hypershell/authorized_peers" := File peers_file ]}.

Definition defaults : options :=
  {| f := "/home/op/.hypershell/peer";
     firewall := "/home/op/.hypershell/authorized_peers";
     disableFirewall := false;
     protocol := None;
     tunnelHost := None;
     tunnelPort := None;
     testnet := false |}.


(** Some inputs, options and states for the examples. *)

Definition session : list input :=
  [Handshake 0 alice; Handshake 1 carol; Negotiate 0 "hypershell" (Object 7);
   FileChange (to_hex carol +:+ " carol" +:+ LF); Handshake 2 bob].

Definition shell_only : options :=
  {| f := "/home/op/.hypershell/peer";
     firewall := "/home/op/.hypershell/authorized_peers";
     disableFirewall := false;
     protocol := Some ["shell"];
     tunnelHost := None;
     tunnelPort := None;
     testnet := false |}.

Definition all_four : options :=
  {| f := "/home/op/.hypershell/peer";
     firewall := "/home/op/.hypershell/authorized_peers";
     disableFirewall := false;
     protocol := Some ["shell"; "upload"; "download"; "tunnel"];
     tunnelHost := None;
     tunnelPort := None;
     testnet := false |}.

Definition no_firewall : options :=
  {| f := "/home/op/.hypershell/peer";
     firewall := "/home/op/.hypershell/authorized_peers";
     disableFirewall := true;
     protocol := None;
     tunnelHost := None;
     tunnelPort := None;
     testnet := false |}.

Definition upload_attempt : list input :=
  [Handshake 0 alice; Negotiate 0 "hypershell-upload" (Object 1);
   Negotiate 0 "hypershell" (Object 2)].

Definition bad_file : string := "# peers" +:+ LF +:+ "not-a-key mallory" +:+ LF.

Definition two_peers : list input := [Handshake 0 alice; Handshake 1 bob].

(** Both sockets are ended together; the server is closed next, and then
    the node is destroyed while the file watcher is released. *)
Definition a_drain : list Goodbye.event :=
  [Goodbye.Begin 3; Goodbye.Begin 4; Goodbye.Settled 4; Goodbye.Settled 3;
   Goodbye.Begin 2; Goodbye.Settled 2;
   Goodbye.Begin 0; Goodbye.Begin 1; Goodbye.Settled 0; Goodbye.Settled 1].

(** A home directory without an authorized-peers file, and one whose file
    has a line that is not a key. *)
Definition fresh_home : gmap string node :=
  {[ "/home/op/.hypershell/peer" := File (to_hex (replicate 32 Byte.x01) +:+ LF) ]}.
Definition spoilt_home : gmap string node :=
  <[ "/home/op/.hypershell/authorized_peers" := File bad_file ]> home.

Definition connected_world : world := ((cmd defaults ;; serve two_peers) (boot home)).2.

Definition open_door : world := with_allowed (ABool true) (boot ∅).
Definition listed : world := with_allowed (AList [alice]) (boot ∅).

End Demo.


(** ** Vocabulary of the connections and of the start-up *)

Section Conduct.

Context `{Platform}.

(** The listeners of a socket that [onconnection] has set up: the three
    that stay, and the cancellation of the teardown action, which waits for
    the first ['close'] and is gone after it. *)
Definition wiring (pending : option nat) : list (string * bool * listener) :=
  [("end", false, MirrorEnd); ("close", false, LogClose); ("error", false, ReportError)] ++
  match pending with
  | Some id => [("close", true, Unregister id)]
  | None => []
  end.

(** The socket after [socket.end()]. *)
Definition hung_up (k : socket) : socket :=
  Socket (remotePublicKey k) (listeners k) (keepAlive k) true (muxed k).

(** The socket after its first ['close']. *)
Definition gone (k : socket) : socket :=
  Socket (remotePublicKey k) (wiring None) (keepAlive k) (ended k) (muxed k).

(** The options that the callbacks of [onconnection] hand to the handler
    they make: those of the run for the tunnel, none for the others. *)
Definition restrictions_for (o : options) (c : handler_class) : option restrictions :=
  match c with
  | LocalTunnelServer => Some (tunnelHost o, tunnelPort o)
  | ShellServer | UploadServer | DownloadServer => None
  end.

(** The registration that [onconnection] makes for the socket [s]. *)
Definition teardown_of (s id : nat) : Goodbye.handler :=
  Goodbye.Handler id 1 (Goodbye.EndSocket s).

(** What holds of the connections of a run with the options [o]: the
    server, once made, carries the protocols and the options of the run;
    every socket is as [onconnection] set it up, and the teardown action
    whose cancellation it still holds is registered; every handler was made
    with the options of its class. *)
Definition kept_up (o : options) (w : world) : Prop :=
  (∀ ps o', server w = Some (Some (ps, o')) → ps = protocols_of o ∧ o' = o) ∧
  orderly (registry w) ∧
  (∀ s k, sockets w !! s = Some k →
     keepAlive k = Some 5000 ∧
     muxed k = Some (bindings_of (items (protocols_of o)) o) ∧
     ∃ pending, listeners k = wiring pending ∧
       ∀ id, pending = Some id → teardown_of s id ∈ Goodbye.handlers (registry w)) ∧
  (∀ i c s x, Construct i c s x ∈ acts w → x = restrictions_for o c).

(** The socket still holds the cancellation of its teardown action: no
    ['close'] has reached it. *)
Definition live (s : nat) (w : world) : Prop :=
  ∃ k id, sockets w !! s = Some k ∧ listeners k = wiring (Some id).

(** Every connection has its line of the firewall on the standard
    output. *)
Definition announced (w : world) : Prop :=
  ∀ s k, sockets w !! s = Some k →
    "Firewall allowed: " +:+ HypercoreId_encode (remotePublicKey k) ∈ stdout w.

(** The line that [console.log('Connection closed', ...)] prints. *)
Definition closed_line (k : socket) : string :=
  "Connection closed " +:+ HypercoreId_encode (remotePublicKey k).

(** The notice of [readAuthorizedPeers]. *)
Definition notice (p : string) : string := "Notice: creating default firewall " +:+ p.

(** What [readAuthorizedPeers] on the file name [p] does to the process:
    it may add entries for [p] and its directory to the file system, it
    names no other path, and it prints nothing but its notice. *)
Definition reads_peers (p : string) (w w' : world) : Prop :=
  touches_files_only w w' ∧ files w ⊆ files w' ∧
  (∀ q, q ≠ p → q ≠ path_dirname p → files w' !! q = files w !! q) ∧
  (∃ calls, fs_calls w' = fs_calls w ++ calls ∧
            Forall (λ c, c.2 = p ∨ c.2 = path_dirname p) calls) ∧
  (stdout w' = stdout w ∨ stdout w' = stdout w ++ [notice p]).

(** The teardown actions that [cmd] registers, with their positions, in the
    order of registration. *)
Definition startup_teardowns (o : options) : list (Goodbye.teardown * nat) :=
  (if disableFirewall o then [] else [(Goodbye.UnwatchFirewall, 3)]) ++
  [(Goodbye.DestroyNode, 3); (Goodbye.CloseServer, 2)].

End Conduct.

(** ** More scenes for the examples *)

Module Cases.

Import Demo.

(** A platform on which [server.listen] rejects. *)
Definition offline : Platform := {|
  path_resolve p := p;
  path_dirname := dirname;
  HypercoreId_encode := to_hex;
  HypercoreId_decode := key_of_hex;
  DHT_keyPair seed := {| publicKey := rev seed; secretKey := seed |};
  keygen_seed := to_hex (replicate 32 Byte.x07);
  listen_failure _ := Some (Error (Some "EADDRINUSE") "address already in use")
|}.

(** A home directory whose key file holds no seed, one with a directory
    under the name of the authorized-peers file, and one with a regular file
    where the directory should be. *)
Definition garbled_home : gmap string node :=
  <[ "/home/op/.hypershell/peer" := File "not a seed" ]> home.
Definition blocked_home : gmap string node :=
  <[ "/home/op/.hypershell/authorized_peers" := Dir ]> home.
Definition misplaced_home : gmap string node :=
  {[ "/home/op/.hypershell" := File "" ]}.

Definition seed_text : string := to_hex (replicate 32 Byte.x01) +:+ LF.

(** A key file as an editor may leave it: a byte order mark (U+FEFF) before
    the seed, a no-break space (U+00A0) and a line feed after it. *)
Definition padded_text : string :=
  String "239" (String "187" (String "191" (to_hex (replicate 32 Byte.x01)))) +:+
  String "194" (String "160" LF).
Definition padded_home : gmap string node :=
  <[ "/home/op/.hypershell/peer" := File padded_text ]> home.

(** The tunnel, restricted to one host and one port. *)
Definition restricted : options :=
  {| f := "/home/op/.hypershell/peer";
     firewall := "/home/op/.hypershell/authorized_peers";
     disableFirewall := false;
     protocol := Some ["shell"; "tunnel"];
     tunnelHost := Some ["127.0.0.1"];
     tunnelPort := Some ["22"];
     testnet := true |}.

Definition tunnel_session : list input :=
  [Handshake 0 alice; Negotiate 0 "hypershell-tunnel-local" (Object 1);
   Negotiate 0 "hypershell" Null].

Definition carol_only : string := to_hex carol +:+ " carol" +:+ LF.

Definition busy_session : list input :=
  [Negotiate 1 "hypershell" (Object 9); SocketEmits 0 "close" None;
   SocketEmits 1 "end" None].

Definition reset : error := Error (Some "ECONNRESET") "read ECONNRESET".
Definition broken_pipe : error := Error (Some "EPIPE") "write EPIPE".

End Cases.


(** * Properties *)

(** ** The drain of the registry *)

Module GoodbyeFacts.

Import Goodbye.

Lemma elem_of_remove (id x : nat) (ids : list nat) :
  x ∈ remove id ids ↔ x ≠ id ∧ x ∈ ids.
Proof. unfold remove. by rewrite list_elem_of_filter. Qed.

Lemma NoDup_remove (id : nat) (ids : list nat) : NoDup ids → NoDup (remove id ids).
Proof. apply NoDup_filter. Qed.

Lemma pending_release (d : drain) : pending (release d) = pending d.
Proof.
  unfold release, pending.
  by destruct d as [[|] [|] [|tier rest]].
Qed.


Lemma step_NoDup (d d' : drain) (e : event) :
  step d e = Some d' → NoDup (pending d) → NoDup (pending d').
Proof.
  destruct e as [id|id]; cbn; case_decide as Hin; intros [= <-]; [|rewrite pending_release];
    unfold pending; cbn; rewrite ?NoDup_app, ?NoDup_cons.
  - intros (Hw & Hwr & Hr & Hrl & Hl). split_and!.
    + by apply NoDup_remove.
    + intros x [Hx Hxw]%elem_of_remove. rewrite not_elem_of_cons. split; [done|by apply Hwr].
    + by apply Hwr.
    + by apply NoDup_app.
  - intros (Hw & Hwr & Hr & Hrl & Hl). split_and!.
    + done.
    + intros x Hxw Hx. apply (Hwr x Hxw). revert Hx.
      rewrite !elem_of_app, elem_of_remove. tauto.
    + by apply NoDup_remove.
    + intros x [? ?]%elem_of_remove. by apply Hrl.
    + done.
Qed.

Lemma release_busy (d : drain) (x : nat) : x ∈ current d → release d = d.
Proof.
  unfold current, release. destruct d as [[|] [|] later]; cbn; try done.
  by intros ?%elem_of_nil.
Qed.

Lemma run_cons (d : drain) (e : event) (t : list event) (d' : drain) :
  run d (e :: t) = Some d' ↔ ∃ d1, step d e = Some d1 ∧ run d1 t = Some d'.
Proof.
  cbn. destruct (step d e) as [d1|].
  - split; [eauto|]. by intros (? & [= <-] & ?).
  - split; [done|]. by intros (? & ? & ?).
Qed.

(** Nothing of a tier behind the barrier begins while an action of the
    tier in progress has not settled. *)
Lemma barrier_current (t1 t2 : list event) (d d' : drain) (i j : nat) :
  run d (t1 ++ Begin j :: t2) = Some d' → NoDup (pending d) →
  i ∈ current d → j ∈ mjoin (later d) → Settled i ∈ t1.
Proof.
  revert d. induction t1 as [|e t1 IH]; intros d Hrun Hnd Hi Hj.
  - apply run_cons in Hrun as (d1 & Hstep & _). cbn in Hstep.
    case_decide as Hw; [|done]. exfalso.
    unfold pending in Hnd. apply NoDup_app in Hnd as (_ & Hdisj & _).
    apply (Hdisj j Hw). rewrite elem_of_app. by right.
  - rewrite <- app_comm_cons in Hrun. apply run_cons in Hrun as (d1 & Hstep & Hrun).
    destruct (decide (e = Settled i)) as [->|Hne]; [by left|].
    right. apply (IH d1 Hrun); [by eapply step_NoDup|..].
    + destruct e as [id|id]; cbn in Hstep; case_decide; simplify_eq.
      * unfold current in *. cbn. revert Hi.
        rewrite !elem_of_app, elem_of_cons, elem_of_remove.
        destruct (decide (i = id)); tauto.
      * assert (i ∈ current (Drain (waiting d) (remove id (running d)) (later d))) as Hi'.
        { unfold current in *. cbn. revert Hi. rewrite !elem_of_app, elem_of_remove.
          intros [?|?]; [by left|right]. split; [congruence|done]. }
        by rewrite (release_busy _ _ Hi').
    + destruct e as [id|id]; cbn in Hstep; case_decide; simplify_eq; [done|].
      assert (i ∈ current (Drain (waiting d) (remove id (running d)) (later d))) as Hi'.
      { unfold current in *. cbn. revert Hi. rewrite !elem_of_app, elem_of_remove.
        intros [?|?]; [by left|right]. split; [congruence|done]. }
      by rewrite (release_busy _ _ Hi').
Qed.

(** The same across two tiers that are both behind the barrier. *)
Lemma barrier_later (t1 t2 : list event) (d d' : drain) (i j : nat)
    (l1 l2 l3 : list (list nat)) (ti tj : list nat) :
  run d (t1 ++ Begin j :: t2) = Some d' → NoDup (pending d) →
  later d = l1 ++ ti :: l2 ++ tj :: l3 → i ∈ ti → j ∈ tj → Settled i ∈ t1.
Proof.
  revert d l1. induction t1 as [|e t1 IH]; intros d l1 Hrun Hnd Hl Hi Hj.
  - apply run_cons in Hrun as (d1 & Hstep & _). cbn in Hstep.
    case_decide as Hw; [|done]. exfalso.
    unfold pending in Hnd. apply NoDup_app in Hnd as (_ & Hdisj & _).
    apply (Hdisj j Hw). rewrite elem_of_app. right.
    apply list_elem_of_join. exists tj. split; [done|]. rewrite Hl.
    rewrite elem_of_app, elem_of_cons, elem_of_app, elem_of_cons. tauto.
  - rewrite <- app_comm_cons in Hrun. apply run_cons in Hrun as (d1 & Hstep & Hrun).
    right. pose proof (step_NoDup _ _ _ Hstep Hnd) as Hnd1.
    destruct e as [id|id]; cbn in Hstep; case_decide; simplify_eq.
    + by apply (IH _ l1 Hrun).
    + unfold release in Hrun, Hnd1. cbn in Hrun, Hnd1.
      destruct (waiting d) as [|x w] eqn:Hw; [|by apply (IH _ l1 Hrun)].
      destruct (remove id (running d)) as [|y r] eqn:Hr; [|by apply (IH _ l1 Hrun)].
      rewrite Hl in Hrun, Hnd1. destruct l1 as [|tier l1]; cbn in Hrun, Hnd1.
      * apply (barrier_current _ _ _ _ _ _ Hrun Hnd1).
        -- unfold current. cbn. by rewrite app_nil_r.
        -- cbn. apply list_elem_of_join. exists tj. split; [done|].
           rewrite elem_of_app, elem_of_cons. tauto.
      * by apply (IH _ l1 Hrun).
Qed.

(** *** How the handlers are filed *)

Lemma at_tier_cons (ts : list (nat * list nat)) (q : nat) (ids : list nat) (p id : nat) :
  at_tier ((q, ids) :: ts) p id ↔ (p = q ∧ id ∈ ids) ∨ at_tier ts p id.
Proof.
  unfold at_tier. split.
  - intros (ids' & [[= -> ->]|Hin]%elem_of_cons & Hid); [by left|right; eauto].
  - intros [[-> Hid]|(ids' & Hin & Hid)].
    + exists ids. split; [by left|done].
    + exists ids'. split; [by right|done].
Qed.

Lemma at_tier_enroll (h : handler) (ts : list (nat * list nat)) (p id : nat) :
  at_tier (enroll h ts) p id ↔ (p = position h ∧ id = hid h) ∨ at_tier ts p id.
Proof.
  induction ts as [|[q ids] ts IH]; cbn.
  - rewrite at_tier_cons, list_elem_of_singleton. tauto.
  - repeat case_decide; rewrite !at_tier_cons.
    + rewrite list_elem_of_singleton. tauto.
    + rewrite elem_of_app, list_elem_of_singleton. subst q. tauto.
    + rewrite IH. tauto.
Qed.

Lemma enroll_keys (P : nat → Prop) (h : handler) (ts : list (nat * list nat)) :
  P (position h) → Forall (λ b, P b.1) ts → Forall (λ b, P b.1) (enroll h ts).
Proof.
  intros Hh. induction 1 as [|[q ids] ts Hq Hts IH]; cbn.
  - by repeat constructor.
  - repeat case_decide; repeat constructor; done.
Qed.

Lemma enroll_ascending (h : handler) (ts : list (nat * list nat)) :
  ascending ts → ascending (enroll h ts).
Proof.
  unfold ascending. induction 1 as [|[q ids] ts Hts IH Hq]; cbn.
  - by repeat constructor.
  - repeat case_decide.
    + constructor; [by constructor|]. constructor; [done|].
      eapply Forall_impl; [exact Hq|]. cbn. lia.
    + by constructor.
    + constructor; [done|]. apply (enroll_keys (λ k, q < k)); [lia|done].
Qed.

Lemma enroll_ids (h : handler) (ts : list (nat * list nat)) :
  mjoin (enroll h ts).*2 ≡ₚ hid h :: mjoin ts.*2.
Proof.
  induction ts as [|[q ids] ts IH]; cbn; [done|].
  repeat case_decide; cbn; [done|..].
  - rewrite <- app_assoc. cbn. by rewrite <- Permutation_middle.
  - rewrite IH. by rewrite <- Permutation_middle.
Qed.

Lemma filed_spec (hs : list handler) :
  ascending (filed hs) ∧ mjoin (filed hs).*2 ≡ₚ hid <$> hs ∧
  ∀ p id, at_tier (filed hs) p id ↔ ∃ h, h ∈ hs ∧ position h = p ∧ hid h = id.
Proof.
  unfold filed.
  cut (∀ acc, ascending acc →
         ascending (foldl (λ ts h, enroll h ts) acc hs) ∧
         mjoin (foldl (λ ts h, enroll h ts) acc hs).*2 ≡ₚ mjoin acc.*2 ++ (hid <$> hs) ∧
         ∀ p id, at_tier (foldl (λ ts h, enroll h ts) acc hs) p id ↔
                 at_tier acc p id ∨ ∃ h, h ∈ hs ∧ position h = p ∧ hid h = id).
  { intros Hcut. destruct (Hcut [] (SSorted_nil _)) as (Hs & Hp & Ht).
    split_and!; [done..|]. intros p id. rewrite Ht. split; [|by right].
    intros [(ids & []%elem_of_nil & _)|?]; done. }
  induction hs as [|h hs IH]; intros acc Hacc; cbn.
  - rewrite app_nil_r. split_and!; [done..|]. intros p id. split; [by left|].
    intros [?|(h & []%elem_of_nil & _)]; done.
  - destruct (IH (enroll h acc) (enroll_ascending _ _ Hacc)) as (Hs & Hp & Ht).
    split_and!; [done|..].
    + rewrite Hp, enroll_ids. cbn. apply Permutation_middle.
    + intros p id. rewrite Ht, at_tier_enroll. split.
      * intros [[[-> ->]|?]|(h' & ? & ?)]; [right; exists h|by left|right; exists h'];
          (split; [|done]); [by left|by right].
      * intros [?|(h' & [->|?]%elem_of_cons & <- & <-)]; [by left; right|by left; left|].
        right. by exists h'.
Qed.

(** In an ascending file, the tier of the lower position comes first. *)
Lemma ascending_split (ts : list (nat * list nat)) (p q : nat) (ids1 ids2 : list nat) :
  ascending ts → (p, ids1) ∈ ts → (q, ids2) ∈ ts → p < q →
  ∃ l1 l2 l3, ts = l1 ++ (p, ids1) :: l2 ++ (q, ids2) :: l3.
Proof.
  intros Hs Hp Hq Hpq.
  apply list_elem_of_split in Hp as (l1 & l' & ->).
  apply elem_of_app in Hq as [Hq|[[= -> ->]|Hq]%elem_of_cons]; [|lia|].
  - exfalso.
    pose proof (StronglySorted_app_1_elem_of _ _ _ (q, ids2) (p, ids1) Hs Hq) as Hlt.
    cbn in Hlt. assert (q < p); [apply Hlt; by left|lia].
  - apply list_elem_of_split in Hq as (l2 & l3 & ->). by exists l1, l2, l3.
Qed.

(** Tiers run in ascending order: nothing of a higher tier begins before
    everything of a lower tier has settled. *)
Lemma shutdown_order (hs : list handler) (t t1 t2 : list event) (h1 h2 : handler) :
  shutdown hs t = true → NoDup (hid <$> hs) →
  h1 ∈ hs → h2 ∈ hs → position h1 < position h2 →
  t = t1 ++ Begin (hid h2) :: t2 → Settled (hid h1) ∈ t1.
Proof.
  unfold shutdown, start, tiers. fold (filed hs).
  destruct (filed_spec hs) as (Hasc & Hperm & Htier).
  intros Hrun Hnd Hh1 Hh2 Hlt ->.
  destruct (run _ _) as [d'|] eqn:Hd; [clear Hrun|done].
  destruct (proj2 (Htier (position h1) (hid h1))) as (ids1 & Hin1 & Hid1); [by exists h1|].
  destruct (proj2 (Htier (position h2) (hid h2))) as (ids2 & Hin2 & Hid2); [by exists h2|].
  destruct (ascending_split _ _ _ _ _ Hasc Hin1 Hin2 Hlt) as (l1 & l2 & l3 & Hts).
  rewrite <- Hperm in Hnd. rewrite Hts in Hd, Hnd.
  rewrite !fmap_app, !fmap_cons, !fmap_app, !fmap_cons in Hd, Hnd. cbn [snd] in Hd, Hnd.
  destruct l1 as [|[q0 tier0] l1]; cbn in Hd.
  - eapply (barrier_current _ _ _ _ _ _ Hd); cbn.
    + exact Hnd.
    + unfold current. cbn. by rewrite app_nil_r.
    + apply list_elem_of_join. exists ids2. split; [done|].
      rewrite elem_of_app, elem_of_cons. tauto.
  - eapply (barrier_later _ _ _ _ _ _ _ _ _ _ _ Hd); cbn; [|reflexivity|done..].
    exact Hnd.
Qed.


Lemma finished_pending (d : drain) : finished d = true → pending d = [].
Proof. by destruct d as [[|] [|] [|]]. Qed.

Lemma run_completes (t : list event) (d d' : drain) (id : nat) :
  run d t = Some d' → finished d' = true → id ∈ pending d →
  Settled id ∈ t ∧ (id ∉ running d → Begin id ∈ t).
Proof.
  revert d. induction t as [|e t IH]; intros d Hrun Hfin Hin.
  - cbn in Hrun. simplify_eq. rewrite (finished_pending _ Hfin) in Hin.
    by apply elem_of_nil in Hin.
  - apply run_cons in Hrun as (d1 & Hstep & Hrun).
    destruct (decide (e = Settled id)) as [->|Hs].
    + split; [by left|]. cbn in Hstep. case_decide; done.
    + assert (id ∈ pending d1 ∧ (e ≠ Begin id → id ∉ running d → id ∉ running d1))
        as [Hin1 Hrun1].
      { destruct e as [x|x]; cbn in Hstep; case_decide; simplify_eq.
        - unfold pending in *. cbn. split.
          + revert Hin. rewrite !elem_of_app, elem_of_cons, elem_of_remove, !elem_of_app.
            destruct (decide (id = x)); tauto.
          + rewrite not_elem_of_cons. intros ? ?. split; [congruence|done].
        - rewrite pending_release. unfold pending in *. cbn. split.
          + revert Hin. rewrite !elem_of_app, elem_of_remove.
            intros [?|[?|?]]; [tauto| |tauto]. right; left. split; [congruence|done].
          + intros _ Hnr. unfold release. cbn.
            destruct (waiting d), (remove x (running d)) eqn:Hr, (later d); cbn;
              rewrite <- ?Hr, ?elem_of_remove; try apply not_elem_of_nil; tauto. }
      destruct (IH d1 Hrun Hfin Hin1) as [Hset Hbeg]. split; [by right|].
      intros Hnr. destruct (decide (e = Begin id)) as [->|Hb]; [by left|].
      right. by apply Hbeg, Hrun1.
Qed.

Lemma pending_start (hs : list handler) : pending (start hs) ≡ₚ hid <$> hs.
Proof.
  unfold start. rewrite pending_release. unfold pending, tiers. cbn.
  fold (filed hs). by destruct (filed_spec hs) as (_ & -> & _).
Qed.

Lemma running_start (hs : list handler) : running (start hs) = [].
Proof. unfold start, release. cbn. by destruct (tiers hs). Qed.

(** A complete drain begins and settles every registered action. *)
Lemma shutdown_begins (hs : list handler) (t : list event) (h : handler) :
  shutdown hs t = true → h ∈ hs → Begin (hid h) ∈ t ∧ Settled (hid h) ∈ t.
Proof.
  unfold shutdown. destruct (run (start hs) t) as [d'|] eqn:Hrun; [|done].
  intros Hfin Hh.
  destruct (run_completes _ _ _ (hid h) Hrun Hfin) as [Hs Hb].
  { rewrite pending_start. apply list_elem_of_fmap. by exists h. }
  split; [|done]. apply Hb. rewrite running_start. apply not_elem_of_nil.
Qed.


Lemma run_app (t1 t2 : list event) (d : drain) :
  run d (t1 ++ t2) = run d t1 ≫= λ d1, run d1 t2.
Proof.
  revert d. induction t1 as [|e t1 IH]; intros d; [done|].
  cbn. destruct (step d e); [apply IH|done].
Qed.

Lemma remove_head (x : nat) (ids : list nat) : x ∉ ids → remove x (x :: ids) = ids.
Proof.
  intros Hx. unfold remove. rewrite filter_cons_False by (intros ?; done).
  induction ids as [|y ids IH]; [done|].
  apply not_elem_of_cons in Hx as [Hxy Hx].
  rewrite filter_cons_True by done. f_equal. by apply IH.
Qed.

(** Starting the actions of a tier one after the other. *)
Lemma run_begin_all (tier busy : list nat) (rest : list (list nat)) :
  NoDup tier →
  run (Drain tier busy rest) (Begin <$> tier) = Some (Drain [] (reverse tier ++ busy) rest).
Proof.
  revert busy. induction tier as [|x tier IH]; intros busy Hnd; [done|].
  apply NoDup_cons in Hnd as [Hx Hnd].
  cbn [fmap list_fmap run step waiting running later].
  rewrite decide_True by by left. rewrite remove_head by done.
  rewrite IH by done. by rewrite reverse_cons, <- app_assoc.
Qed.

(** Letting the running actions settle, in the order of a list [l] that
    enumerates them; the barrier opens after the last. *)
Lemma run_settle_all (l busy : list nat) (rest : list (list nat)) :
  l ≠ [] → NoDup l → busy ≡ₚ l →
  run (Drain [] busy rest) (Settled <$> l) = Some (release (Drain [] [] rest)).
Proof.
  revert busy. induction l as [|x l IH]; intros busy Hne Hnd Hperm; [done|].
  apply NoDup_cons in Hnd as [Hx Hnd].
  cbn [fmap list_fmap run step waiting running later].
  rewrite decide_True by (rewrite Hperm; by left).
  assert (remove x busy ≡ₚ l) as Hrest.
  { unfold remove. rewrite Hperm. rewrite filter_cons_False by (intros ?; done).
    clear -Hx. induction l as [|y l IH]; [done|].
    apply not_elem_of_cons in Hx as [Hxy Hx].
    rewrite filter_cons_True by done. by rewrite IH. }
  destruct l as [|y l].
  - apply Permutation_nil_r in Hrest. by rewrite Hrest.
  - assert (release (Drain [] (remove x busy) rest) = Drain [] (remove x busy) rest)
      as ->.
    { apply (release_busy _ y). unfold current. cbn. rewrite Hrest. by left. }
    by apply IH.
Qed.

Lemma enroll_inhabited (h : handler) (ts : list (nat * list nat)) :
  Forall (λ b, b.2 ≠ []) ts → Forall (λ b, b.2 ≠ []) (enroll h ts).
Proof.
  induction 1 as [|[q ids] ts Hq Hts IH]; cbn.
  - by repeat constructor.
  - repeat case_decide; repeat constructor; try done.
    cbn. by destruct ids.
Qed.

Lemma filed_inhabited (hs : list handler) : Forall (λ b, b.2 ≠ []) (filed hs).
Proof.
  unfold filed. cut (∀ acc, Forall (λ b : nat * list nat, b.2 ≠ []) acc →
    Forall (λ b : nat * list nat, b.2 ≠ []) (foldl (λ ts h, enroll h ts) acc hs)).
  { intros Hcut. by apply Hcut. }
  induction hs as [|h hs IH]; intros acc Hacc; [done|].
  cbn. by apply IH, enroll_inhabited.
Qed.

Lemma run_tiers (ts : list (list nat)) :
  Forall (λ tier, tier ≠ []) ts → NoDup (mjoin ts) →
  ∃ d, run (release (Drain [] [] ts))
           (mjoin ((λ tier, (Begin <$> tier) ++ (Settled <$> tier)) <$> ts)) = Some d ∧
       finished d = true.
Proof.
  induction 1 as [|tier ts Htier Hts IH]; intros Hnd.
  - by exists (Drain [] [] []).
  - cbn in Hnd. apply NoDup_app in Hnd as (Hnd1 & _ & Hnd2).
    destruct (IH Hnd2) as (d & Hrun & Hfin). exists d. split; [|done].
    cbn. rewrite <- app_assoc, run_app.
    rewrite run_begin_all by done. cbn.
    rewrite app_nil_r, run_app.
    rewrite run_settle_all; [done|done|done|apply reverse_Permutation].
Qed.

(** Every registry can be drained: the schedule that runs the actions one
    after the other is a complete run. *)
Lemma shutdown_sequential (hs : list handler) :
  NoDup (hid <$> hs) → shutdown hs (sequential hs) = true.
Proof.
  intros Hnd. unfold shutdown, sequential, start, tiers. fold (filed hs).
  destruct (filed_spec hs) as (_ & Hperm & _).
  destruct (run_tiers (filed hs).*2) as (d & -> & Hfin); [| |done].
  - apply Forall_fmap. apply filed_inhabited.
  - by rewrite Hperm.
Qed.

End GoodbyeFacts.

Import GoodbyeFacts.

(** ** Vocabulary of the properties *)

Lemma Buffer_equals_true (a b : Buffer) : Buffer_equals a b = true ↔ a = b.
Proof.
  revert b. induction a as [|x a IH]; intros [|y b]; simpl; try (split; congruence).
  rewrite andb_true_iff, IH. split.
  - intros [Hxy ->]. by rewrite (Byte.byte_dec_bl _ _ Hxy).
  - intros [= -> ->]. split; [by apply Byte.byte_dec_lb | done].
Qed.

Lemma Buffer_equals_existsb (remote : Buffer) (keys : list Buffer) :
  existsb (Buffer_equals remote) keys = true ↔ remote ∈ keys.
Proof.
  rewrite existsb_exists, list_elem_of_In. split.
  - intros (k & Hk & ->%Buffer_equals_true). done.
  - intros Hk. exists remote. split; [done|]. by apply Buffer_equals_true.
Qed.

Lemma parse_record_lines (content : string) :
  Configs.parse content = Configs.fields <$> Configs.record_lines content.
Proof.
  unfold Configs.parse, Configs.record_lines.
  induction (Configs.lines content) as [|l ls IH]; [done|].
  cbn [omap list_omap]. unfold Configs.parse_line at 1.
  rewrite filter_cons. destruct (Configs.is_record l) eqn:Hl.
  - rewrite decide_True by done. by rewrite fmap_cons, IH.
  - rewrite decide_False by congruence. done.
Qed.

Section Decoding.

Context `{Platform}.

Lemma map_decode_run (records : list (list string)) (w : world) :
  map_decode records w =
  (match mapM (λ v, head v ≫= HypercoreId_decode) records with
   | Some keys => Normal keys
   | None => Throw Invalid_key
   end, w).
Proof.
  induction records as [|v rest IH]; [reflexivity|].
  cbn [map_decode mapM]. unfold bind at 1, decode_key.
  destruct (head v ≫= HypercoreId_decode) as [key|]; simpl; [|done].
  unfold bind. rewrite IH.
  by destruct (mapM _ rest).
Qed.

Lemma keys_of_parse (content : string) :
  mapM (λ v, head v ≫= HypercoreId_decode) (Configs.parse content) = keys_of content.
Proof.
  rewrite parse_record_lines. unfold keys_of.
  induction (Configs.record_lines content) as [|l ls IH]; [done|].
  rewrite fmap_cons. cbn [mapM]. by rewrite IH.
Qed.

Lemma readAuthorizedPeers_content (buf : string) (w : world) :
  readAuthorizedPeers (Content buf) w =
  (match keys_of buf with
   | Some keys => Normal keys
   | None => Throw Invalid_key
   end, w).
Proof.
  unfold readAuthorizedPeers, bind, try_catch, ret. simpl.
  rewrite map_decode_run, keys_of_parse.
  by destruct (keys_of buf).
Qed.

Lemma watcher_callback_run (buf : string) (w : world) :
  watcher_callback buf w =
  match keys_of buf with
  | Some keys => (Normal tt, with_allowed (AList keys) w)
  | None => (Throw Invalid_key, w)
  end.
Proof.
  unfold watcher_callback, bind. rewrite readAuthorizedPeers_content.
  by destruct (keys_of buf).
Qed.

Lemma keys_of_Some (content : string) (keys : list Buffer) :
  keys_of content = Some keys ↔
  Forall2 (λ l key, key_of_line l = Some key) (Configs.record_lines content) keys.
Proof. apply mapM_Some. Qed.

Lemma keys_of_is_Some (content : string) :
  is_Some (keys_of content) ↔
  Forall (λ l, is_Some (key_of_line l)) (Configs.record_lines content).
Proof. apply mapM_is_Some. Qed.

Lemma keys_of_None (content : string) :
  keys_of content = None ↔
  Exists (λ l, key_of_line l = None) (Configs.record_lines content).
Proof. apply mapM_None. Qed.

End Decoding.

(** ** Weakest preconditions over the monad of effects *)

Lemma wp_run {A} (m : M A) (Q : completion A → world → Prop) (w w' : world) r :
  wp m Q w → m w = (r, w') → Q r w'.
Proof. unfold wp. intros HQ Hm. by rewrite Hm in HQ. Qed.

Lemma wp_bind {A B} (m : M A) (k : A → M B) (Q : completion B → world → Prop) (w : world) :
  wp m (λ r w1, match r with
                | Normal a => wp (k a) Q w1
                | Throw e => Q (Throw e) w1
                end) w →
  wp (bind m k) Q w.
Proof. unfold wp, bind. by destruct (m w) as [[a|e] w1]. Qed.

Lemma wp_try_catch {A} (m : M A) (h : error → M A) (Q : completion A → world → Prop)
    (w : world) :
  wp m (λ r w1, match r with
                | Normal a => Q (Normal a) w1
                | Throw e => wp (h e) Q w1
                end) w →
  wp (try_catch m h) Q w.
Proof. unfold wp, try_catch. by destruct (m w) as [[a|e] w1]. Qed.

Lemma wp_mono {A} (m : M A) (Q Q' : completion A → world → Prop) (w : world) :
  (∀ r w', Q r w' → Q' r w') → wp m Q w → wp m Q' w.
Proof. unfold wp. auto. Qed.

Lemma wp_ret {A} (a : A) (Q : completion A → world → Prop) (w : world) :
  Q (Normal a) w → wp (ret a) Q w.
Proof. done. Qed.

Lemma wp_throw {A} (e : error) (Q : completion A → world → Prop) (w : world) :
  Q (Throw e) w → wp (throw e) Q w.
Proof. done. Qed.

Lemma wp_modify (upd : world → world) (Q : completion unit → world → Prop) (w : world) :
  Q (Normal tt) (upd w) → wp (modify upd) Q w.
Proof. done. Qed.

Lemma wp_gets {A} (proj : world → A) (Q : completion A → world → Prop) (w : world) :
  Q (Normal (proj w)) w → wp (gets proj) Q w.
Proof. done. Qed.

Lemma wp_goodbye (fn : Goodbye.teardown) (pos : nat) (Q : completion nat → world → Prop)
    (w : world) :
  Q (Normal (Goodbye.next_hid (registry w)))
    (with_registry (Goodbye.goodbye fn pos (registry w)).2 w) →
  wp (goodbye fn pos) Q w.
Proof. done. Qed.

Lemma wp_existsSync (p : string) (Q : completion bool → world → Prop) (w : world) :
  Q (Normal (existsSync (files w) p)) (fs_called "existsSync" p w) →
  wp (fs_existsSync p) Q w.
Proof. done. Qed.

Lemma wp_readFileSync (p : string) (Q : completion string → world → Prop) (w : world) :
  Q (readFileSync (files w) p) (fs_called "readFileSync" p w) →
  wp (fs_readFileSync p) Q w.
Proof. done. Qed.

Lemma wp_on_files {A} (fn p : string) (op : gmap string node → completion A * gmap string node)
    (Q : completion A → world → Prop) (w : world) :
  Q (op (files w)).1 (with_files (op (files w)).2 (fs_called fn p w)) →
  wp (on_files fn p op) Q w.
Proof. unfold wp, on_files. by destruct (op (files w)). Qed.

Lemma wp_equal {A} (m : M A) (w : world) (x : completion A * world) :
  wp m (λ r w', (r, w') = x) w → m w = x.
Proof. unfold wp. by destruct (m w). Qed.

Ltac world_simpl :=
  cbv beta iota delta [with_files with_fs_calls with_stdout with_stderr with_registry
       with_watching with_allowed with_dht with_server with_listening with_sockets
       with_acts fs_called];
  cbn [files fs_calls stdout stderr registry watching allowed dht server listening
       sockets acts fst snd].
Tactic Notation "world_simpl" "in" "*" :=
  cbv beta iota delta [with_files with_fs_calls with_stdout with_stderr with_registry
       with_watching with_allowed with_dht with_server with_listening with_sockets
       with_acts fs_called] in *;
  cbn [files fs_calls stdout stderr registry watching allowed dht server listening
       sockets acts fst snd] in *.

(** Symbolic execution of a computation, one construct at a time;
    [wp_step] also splits on a result that is not known. *)
Ltac wp_go :=
  lazymatch goal with
  | |- wp (bind _ _) _ _ => apply wp_bind
  | |- wp (try_catch _ _) _ _ => apply wp_try_catch
  | |- wp (when ?c _) _ _ => unfold when at 1; cbn [negb]
  | |- wp (if ?c then _ else _) _ _ => destruct c eqn:?
  | |- wp (match ?x with _ => _ end) _ _ => destruct x eqn:?
  | |- wp (console_log _) _ _ => unfold console_log
  | |- wp (console_error _) _ _ => unfold console_error
  | |- wp (readFile_live _) _ _ => unfold readFile_live
  | |- wp (unregister _) _ _ => unfold unregister
  | |- wp (keygen _) _ _ => unfold keygen
  | |- wp (decode_key _) _ _ => unfold decode_key
  | |- wp (socket_on _ _ _) _ _ => unfold socket_on
  | |- wp (socket_once _ _ _) _ _ => unfold socket_once
  | |- wp (socket_setKeepAlive _ _) _ _ => unfold socket_setKeepAlive
  | |- wp (socket_end _) _ _ => unfold socket_end
  | |- wp (new_Protomux _) _ _ => unfold new_Protomux
  | |- wp (mux_pair _ _ _) _ _ => unfold mux_pair
  | |- wp (on_socket _ _) _ _ => unfold on_socket
  | |- wp (ret _) _ _ => apply wp_ret; world_simpl
  | |- wp (throw _) _ _ => apply wp_throw; world_simpl
  | |- wp (modify _) _ _ => apply wp_modify; world_simpl
  | |- wp (gets _) _ _ => apply wp_gets; world_simpl
  | |- wp (goodbye _ _) _ _ => apply wp_goodbye; world_simpl
  | |- wp (fs_existsSync _) _ _ => apply wp_existsSync; world_simpl
  | |- wp (fs_readFileSync _) _ _ => apply wp_readFileSync; world_simpl
  | |- wp (on_files _ _ _) _ _ => apply wp_on_files; world_simpl
  end.

Ltac wp_step :=
  first [ wp_go
        | lazymatch goal with
          | |- match ?r with Normal _ => _ | Throw _ => _ end => destruct r eqn:?
          end ].

Section Firewall.

Context `{Platform}.

Lemma onFirewall_scan_run (remote : Buffer) (keys : list Buffer) (w : world) :
  onFirewall_scan remote keys w =
  if existsb (Buffer_equals remote) keys
  then (Normal (Some false), logged ("Firewall allowed: " +:+ HypercoreId_encode remote) w)
  else (Normal None, w).
Proof.
  induction keys as [|publicKey rest IH]; [done|].
  cbn [onFirewall_scan existsb].
  destruct (Buffer_equals remote publicKey); [done|]. by rewrite IH.
Qed.

Lemma onFirewall_run (remote : Buffer) (w : world) :
  onFirewall remote w =
  match allowed w with
  | ABool true =>
      (Normal false, logged ("Firewall allowed: " +:+ HypercoreId_encode remote) w)
  | ABool false => (Throw TypeError_not_iterable, w)
  | AList keys =>
      if bool_decide (remote ∈ keys)
      then (Normal false, logged ("Firewall allowed: " +:+ HypercoreId_encode remote) w)
      else (Normal true, logged ("Firewall denied: " +:+ HypercoreId_encode remote) w)
  end.
Proof.
  unfold onFirewall, bind, gets. cbn [fst snd].
  destruct (allowed w) as [[|]|keys]; [done..|].
  rewrite onFirewall_scan_run.
  destruct (existsb _ keys) eqn:Hk.
  - apply Buffer_equals_existsb in Hk. by rewrite bool_decide_eq_true_2.
  - rewrite bool_decide_eq_false_2; [done|].
    intros Hin%Buffer_equals_existsb. congruence.
Qed.

Lemma notify_run (cb : callback) (s : nat) (channel : value) (w : world) :
  notify cb s channel w =
  (Normal tt,
   with_acts (acts w ++ Construct (length (acts w)) (creates cb) s (passes cb) ::
                        (if truthy channel then [Open (length (acts w))] else [])) w).
Proof.
  unfold notify, bind, gets, modify, ret. cbn.
  destruct (truthy channel); cbn; [|done].
  by rewrite <- app_assoc.
Qed.

End Firewall.

Lemma quiet_refl w : quiet w w.
Proof. unfold quiet. by split_and!. Qed.

Lemma quiet_trans w1 w2 w3 : quiet w1 w2 → quiet w2 w3 → quiet w1 w3.
Proof. unfold quiet. intros (?&?&?&?&?&?&?&?) (?&?&?&?&?&?&?&?). repeat split; congruence. Qed.

Lemma same_peer_refl k : same_peer k k.
Proof. unfold same_peer. by split_and!. Qed.

Lemma alter_twice {A} (g h : A → A) (s : nat) (m : gmap nat A) :
  alter g s (alter h s m) = alter (g ∘ h) s m.
Proof.
  apply map_eq. intros j. destruct (decide (s = j)) as [->|Hne].
  - rewrite !lookup_alter_eq. by destruct (m !! j).
  - by rewrite !lookup_alter_ne.
Qed.

Lemma spared_nil hs : spared [] hs = hs.
Proof.
  unfold spared. induction hs as [|h hs IH]; [done|].
  rewrite filter_cons_True; [by rewrite IH | apply not_elem_of_nil].
Qed.

Lemma spared_cons l ls hs :
  spared ls (spared [l] hs) = spared (l :: ls) hs.
Proof.
  unfold spared. rewrite list_filter_filter. apply list_filter_iff.
  intros h. rewrite !not_elem_of_cons. split.
  - by intros (? & ? & ?).
  - intros (? & ?). split_and!; try done. apply not_elem_of_nil.
Qed.

Lemma spared_other l hs :
  (∀ id, l ≠ Unregister id) → spared [l] hs = hs.
Proof.
  intros Hl. unfold spared. induction hs as [|h hs IH]; [done|].
  rewrite filter_cons_True; [by rewrite IH|].
  rewrite list_elem_of_singleton. intros Heq. by eapply Hl.
Qed.

Lemma spared_unregister id hs :
  spared [Unregister id] hs = filter (λ h, Goodbye.hid h ≠ id) hs.
Proof.
  unfold spared. apply list_filter_iff. intros h.
  rewrite list_elem_of_singleton. split; [congruence|]. intros Hne [= ?]. done.
Qed.

Ltac destruct_registry :=
  match goal with |- ?r = Goodbye.Registry _ _ => destruct r end.

Section Listeners.

Context `{Platform}.

Lemma run_listener_spec (s : nat) (e : option error) (l : listener) (w : world) :
  ∃ G w', run_listener s e l w = (Normal tt, w') ∧ quiet w w' ∧
    registry w' = Goodbye.Registry (spared [l] (Goodbye.handlers (registry w)))
                                   (Goodbye.next_hid (registry w)) ∧
    sockets w' = alter G s (sockets w) ∧ ∀ k, same_peer k (G k).
Proof.
  destruct w. destruct l; cbn.
  - eexists _, _. split; [reflexivity|]. cbn. rewrite spared_other by done.
    split_and!; try done. by destruct_registry.
  - eexists (λ k : socket, k), _. split; [reflexivity|]. cbn. rewrite spared_other by done.
    split_and!; try done. + by destruct_registry. + symmetry. by apply alter_id.
  - exists (λ k : socket, k). destruct e as [err|]; [case_decide|]; cbn;
      (eexists; split; [reflexivity|]); cbn; rewrite spared_other by done;
      (split_and!; try done; [by destruct_registry | symmetry; by apply alter_id]).
  - exists (λ k : socket, k). eexists. split; [reflexivity|]. cbn. rewrite spared_unregister.
    split_and!; try done. symmetry. by apply alter_id.
Qed.

Lemma run_listeners_spec (s : nat) (e : option error) (ls : list listener) (w : world) :
  ∃ G w', run_listeners s e ls w = (Normal tt, w') ∧ quiet w w' ∧
    registry w' = Goodbye.Registry (spared ls (Goodbye.handlers (registry w)))
                                   (Goodbye.next_hid (registry w)) ∧
    sockets w' = alter G s (sockets w) ∧ ∀ k, same_peer k (G k).
Proof.
  revert w. induction ls as [|l ls IH]; intros w.
  - exists (λ k : socket, k), w. cbn. rewrite spared_nil. split_and!; try done.
    + by destruct (registry w). + symmetry. by apply alter_id.
  - destruct (run_listener_spec s e l w) as (G1 & w1 & Hrun1 & Hq1 & Hr1 & Hs1 & HG1).
    destruct (IH w1) as (G2 & w2 & Hrun2 & Hq2 & Hr2 & Hs2 & HG2).
    exists (G2 ∘ G1), w2. split_and!.
    + cbn [run_listeners]. unfold bind. by rewrite Hrun1.
    + by eapply quiet_trans.
    + rewrite Hr2, Hr1. cbn [Goodbye.handlers Goodbye.next_hid]. by rewrite spared_cons.
    + by rewrite Hs2, Hs1, alter_twice.
    + intros k. destruct (HG1 k) as (?&?&?), (HG2 (G1 k)) as (?&?&?).
      unfold same_peer. cbn. split_and!; congruence.
Qed.

End Listeners.

Section Connection.

Context `{Platform}.

Lemma onconnection_run (protocols : array) (o : options) (s : nat) (w : world) :
  onconnection protocols o s w =
  (Normal tt,
   with_sockets
     (alter (connected (bindings_of (items protocols) o) (Goodbye.next_hid (registry w))) s
            (sockets w))
     (with_registry (Goodbye.goodbye (Goodbye.EndSocket s) 1 (registry w)).2 w)).
Proof.
  apply wp_equal. destruct w. unfold onconnection, bindings_of.
  repeat wp_step;
    match goal with
    |- (_, World _ _ _ _ _ _ _ _ _ _ ?a _) = (_, World _ _ _ _ _ _ _ _ _ _ ?b _) =>
      replace a with b; [reflexivity|]
    end;
    symmetry; rewrite !alter_twice; apply alter_ext; intros k _;
    cbv [compose connected remotePublicKey listeners keepAlive ended muxed
         fmap option_fmap option_map];
    by rewrite <- !app_assoc.
Qed.

Lemma emit_spec (s : nat) (ev : string) (e : option error) (w : world) :
  ∃ G w', emit s ev e w = (Normal tt, w') ∧ quiet w w' ∧
    registry w' =
      Goodbye.Registry
        (spared (default [] (called ev ∘ listeners <$> sockets w !! s))
                (Goodbye.handlers (registry w)))
        (Goodbye.next_hid (registry w)) ∧
    sockets w' = alter G s (sockets w) ∧
    ∀ k, remotePublicKey (G k) = remotePublicKey k ∧ muxed (G k) = muxed k ∧
         listeners (G k) = kept ev (listeners k).
Proof.
  unfold emit, bind, gets. cbn [fst snd].
  destruct (sockets w !! s) as [k|] eqn:Hk; cbn [fmap option_fmap option_map default].
  - unfold on_socket, modify. cbn [fst snd].
    match goal with |- context [run_listeners s e ?ls ?w1] =>
      destruct (run_listeners_spec s e ls w1) as (G & w2 & Hrun & Hq & Hr & Hs & HG) end.
    eexists (G ∘ _), w2. split; [exact Hrun|]. split_and!.
    + eapply quiet_trans; [|exact Hq]. unfold quiet. by split_and!.
    + exact Hr.
    + rewrite Hs. apply alter_twice.
    + intros k'. destruct (HG (Socket (remotePublicKey k')
        (filter (λ l, ¬ (l.1.1 = ev ∧ l.1.2 = true)) (listeners k'))
        (keepAlive k') (ended k') (muxed k'))) as (? & ? & ?).
      by split_and!.
  - exists (λ k, Socket (remotePublicKey k) (kept ev (listeners k)) (keepAlive k)
                        (ended k) (muxed k)), w.
    split; [done|]. rewrite spared_nil. split_and!; try apply quiet_refl; try done.
    + by destruct (registry w).
    + by rewrite alter_id'.
Qed.

End Connection.

Section Steps.

Context `{Platform}.

Lemma react_moves (i : input) (w : world) : moves w (react i w).2.
Proof.
  destruct i as [buf|s remote|s ev e|s protocol channel]; cbn [react].
  - unfold bind, gets. cbn [fst snd].
    destruct (watching w) as [|p ps] eqn:Hw; [constructor|].
    rewrite watcher_callback_run. destruct (keys_of buf); cbn [snd]; [|constructor].
    apply moves_reload. by rewrite Hw.
  - unfold bind, gets. cbn [fst snd].
    destruct (server w) as [[[protocols o]|]|] eqn:Hserver; try constructor.
    destruct (listening w); [|constructor].
    destruct (sockets w !! s) eqn:Hs; [constructor|].
    rewrite onFirewall_run.
    destruct (allowed w) as [[|]|keys]; [|constructor|destruct (bool_decide _)];
      try (cbn [snd]; apply moves_reject).
    all: unfold modify; rewrite onconnection_run; cbn [snd].
    all: match goal with |- moves _ ?w' =>
           replace w' with (accept protocols o s remote w); [by apply moves_accept|] end.
    all: unfold accept, logged; destruct w; world_simpl; by rewrite alter_insert_eq.
  - destruct (emit_spec s ev e w) as (G & w' & Hrun & Hq & Hr & Hs & HG).
    rewrite Hrun. by eapply moves_emit.
  - unfold bind, gets. cbn [fst snd].
    destruct (sockets w !! s) as [k|] eqn:Hs; cbn; [|constructor].
    destruct (muxed k) as [m|] eqn:Hm; cbn; [|constructor].
    destruct (paired protocol m) as [cb|] eqn:Hp; [|constructor].
    rewrite notify_run. by eapply moves_dispatch.
Qed.

Lemma serve_invariant (I : world → Prop) (inputs : list input) (w : world) :
  (∀ w w', I w → moves w w' → I w') → I w → I (serve inputs w).2.
Proof.
  intros Hstep. revert w. induction inputs as [|i inputs IH]; intros w Hw; [done|].
  cbn [serve]. unfold bind.
  pose proof (react_moves i w) as Hm.
  destruct (react i w) as [[[]|e] w1]; cbn [snd] in *; [apply IH|]; by eapply Hstep.
Qed.

End Steps.

Lemma orderly_empty : orderly Goodbye.empty.
Proof. split; cbn; constructor. Qed.

Lemma orderly_goodbye (fn : Goodbye.teardown) (r : Goodbye.registry) :
  orderly r → orderly (Goodbye.goodbye fn (tier_of fn) r).2.
Proof.
  intros [Hnd Hall]. split; cbn.
  - rewrite fmap_app. apply NoDup_app. split_and!; [done| |cbn; apply NoDup_singleton].
    intros id (h & -> & Hh)%list_elem_of_fmap. cbn. rewrite list_elem_of_singleton.
    rewrite Forall_forall in Hall. destruct (Hall h Hh). lia.
  - apply Forall_app. split.
    + eapply Forall_impl; [exact Hall|]. cbn. intros h [? ?]. split; [lia|done].
    + apply Forall_singleton. cbn. split; [lia|done].
Qed.

Lemma orderly_spared (ls : list listener) (r : Goodbye.registry) :
  orderly r →
  orderly (Goodbye.Registry (spared ls (Goodbye.handlers r)) (Goodbye.next_hid r)).
Proof.
  intros [Hnd Hall]. split; cbn.
  - unfold spared. revert Hnd. generalize (Goodbye.handlers r). intros hs.
    induction hs as [|h hs IH]; [done|]. rewrite fmap_cons, NoDup_cons. intros [Hh Hhs].
    rewrite filter_cons. case_decide; [|by apply IH].
    rewrite fmap_cons, NoDup_cons. split; [|by apply IH].
    intros (h' & Heq & [_ Hin]%list_elem_of_filter)%list_elem_of_fmap.
    apply Hh. apply list_elem_of_fmap. by exists h'.
  - apply Forall_forall. intros h [_ Hh]%list_elem_of_filter.
    by apply (proj1 (Forall_forall _ _) Hall).
Qed.

Section Invariants.

Context `{Platform}.

Lemma moves_orderly (w w' : world) :
  orderly (registry w) → moves w w' → orderly (registry w').
Proof.
  intros Hw. destruct 1 as [| | | |s ev G w' Hq Hr Hs HG|]; try done.
  - by apply (orderly_goodbye (Goodbye.EndSocket s)).
  - rewrite Hr. by apply orderly_spared.
Qed.

Lemma moves_firewall_state (disabled : bool) (w w' : world) :
  firewall_state disabled w → moves w w' → firewall_state disabled w'.
Proof.
  unfold firewall_state.
  intros Hw. destruct 1 as [|keys Hwatch| | |s ev G w' Hq Hr Hs HG|]; try done.
  - destruct disabled; [by destruct Hw|by exists keys].
  - destruct Hq as (_ & _ & -> & -> & _). done.
Qed.

Lemma moves_covered (w w' : world) : covered w → moves w w' → covered w'.
Proof.
  unfold covered.
  intros Hw. destruct 1 as [| | |protocols o s remote Hsrv Hnew|s ev G w' Hq Hr Hs HG|];
    try done.
  - intros h s0. unfold accept. world_simpl. cbn [Goodbye.goodbye snd Goodbye.handlers].
    rewrite elem_of_app, list_elem_of_singleton. intros [Hh| ->] Ha.
    + destruct (Hw h s0 Hh Ha) as (k & Hk & Hl). exists k. split; [|done].
      rewrite lookup_insert_ne; [done|]. intros ->. congruence.
    + cbn in Ha. simplify_eq. eexists. rewrite lookup_insert_eq. split; [done|].
      cbn. rewrite !elem_of_cons. tauto.
  - intros h s0. rewrite Hr, Hs. cbn [Goodbye.handlers]. unfold spared.
    intros [Hsp Hh]%list_elem_of_filter Ha.
    destruct (Hw h s0 Hh Ha) as (k & Hk & Hl).
    destruct (decide (s = s0)) as [->|Hne].
    + exists (G k). rewrite lookup_alter_eq, Hk. split; [done|].
      destruct (HG k) as (_ & _ & ->). unfold kept. apply list_elem_of_filter.
      split; [|done]. cbn. intros [<- _]. apply Hsp.
      rewrite Hk. cbn. unfold called. apply list_elem_of_fmap.
      exists ("close", true, Unregister (Goodbye.hid h)). split; [done|].
      by apply list_elem_of_filter.
    + exists k. by rewrite lookup_alter_ne.
Qed.



End Invariants.

Lemma wp_of_run {A} (m : M A) (Q : completion A → world → Prop) (w w' : world) r :
  m w = (r, w') → Q r w' → wp m Q w.
Proof. unfold wp. by intros ->. Qed.

Lemma existsSync_true (fs : gmap string node) (p : string) :
  existsSync fs p = true ↔ is_Some (fs !! p).
Proof. unfold existsSync. apply bool_decide_eq_true. Qed.

Lemma existsSync_false (fs : gmap string node) (p : string) :
  existsSync fs p = false ↔ fs !! p = None.
Proof. unfold existsSync. rewrite bool_decide_eq_false. symmetry. apply eq_None_not_Some. Qed.

Lemma parse_default_firewall :
  Configs.parse ("# <public key> <name>" +:+ LF) = [].
Proof. reflexivity. Qed.

Lemma mkdirSync_recursive_ok (fs : gmap string node) (d : string) :
  fs !! d = None ∨ fs !! d = Some Dir →
  mkdirSync_recursive fs d = (Normal tt, <[d := Dir]> fs).
Proof.
  unfold mkdirSync_recursive. intros [Hd|Hd]; rewrite Hd; [done|].
  by rewrite insert_id.
Qed.

Lemma writeFileSync_wx_ok (fs : gmap string node) (parent p data : string) :
  fs !! p = None → fs !! parent = Some Dir →
  writeFileSync_wx fs parent p data = (Normal tt, <[p := File data]> fs).
Proof. intros Hp Hd. unfold writeFileSync_wx. by rewrite Hp, Hd. Qed.

Section AuthorizedPeers.

Context `{Platform}.

Lemma readAuthorizedPeers_existing (p content : string) (w : world) :
  files w !! p = Some (File content) →
  readAuthorizedPeers (Filename p) w =
  (match keys_of content with
   | Some keys => Normal keys
   | None => Throw Invalid_key
   end,
   with_fs_calls (fs_calls w ++ [("existsSync", p); ("readFileSync", p)]) w).
Proof.
  intros Hp. apply wp_equal. unfold readAuthorizedPeers. destruct w. world_simpl in *.
  do 3 wp_go. rewrite (proj2 (existsSync_true _ _)) by (rewrite Hp; eauto).
  cbn [negb when]. repeat wp_go. unfold readFileSync. rewrite Hp.
  eapply wp_of_run; [apply map_decode_run|]. rewrite keys_of_parse. world_simpl.
  destruct (keys_of content); [by rewrite <- app_assoc|].
  wp_step; [done|]. wp_step. by rewrite <- app_assoc.
Qed.

Lemma readAuthorizedPeers_absent (p : string) (w : world) :
  files w !! p = None →
  files w !! path_dirname p = None ∨ files w !! path_dirname p = Some Dir →
  path_dirname p ≠ p →
  readAuthorizedPeers (Filename p) w =
  (Normal [],
   with_stdout (stdout w ++ ["Notice: creating default firewall " +:+ p])
     (with_fs_calls (fs_calls w ++ [("existsSync", p); ("mkdirSync", path_dirname p);
                                    ("writeFileSync", p); ("readFileSync", p)])
        (with_files (<[p := File default_firewall]> (<[path_dirname p := Dir]> (files w)))
           w))).
Proof.
  intros Hp Hdir Hne. apply wp_equal. unfold readAuthorizedPeers.
  destruct w. world_simpl in *.
  do 3 wp_go. rewrite (proj2 (existsSync_false _ _)) by done. cbn [negb when].
  repeat wp_go. rewrite mkdirSync_recursive_ok by done. world_simpl.
  repeat wp_go.
  rewrite writeFileSync_wx_ok;
    [|by rewrite lookup_insert_ne|by rewrite lookup_insert_eq].
  world_simpl. repeat wp_go. unfold readFileSync. rewrite lookup_insert_eq.
  eapply wp_of_run; [apply map_decode_run|].
  unfold default_firewall. rewrite parse_default_firewall. cbn [mapM]. world_simpl.
  by rewrite <- !app_assoc.
Qed.

Lemma readAuthorizedPeers_touches (filename : file_arg) (w : world) :
  touches_files_only w (readAuthorizedPeers filename w).2.
Proof.
  change (wp (readAuthorizedPeers filename) (λ _ w', touches_files_only w w') w).
  unfold readAuthorizedPeers, touches_files_only. destruct w. world_simpl.
  destruct filename as [p|buf].
  - repeat (wp_step || (eapply wp_of_run; [apply map_decode_run|]; world_simpl));
      by split_and!.
  - repeat (wp_step || (eapply wp_of_run; [apply map_decode_run|]; world_simpl));
      by split_and!.
Qed.

Lemma wp_readAuthorizedPeers (filename : file_arg) (Q : completion (list Buffer) → world → Prop)
    (w : world) :
  (∀ r w', touches_files_only w w' → Q r w') → wp (readAuthorizedPeers filename) Q w.
Proof. intros HQ. apply HQ, readAuthorizedPeers_touches. Qed.

End AuthorizedPeers.

(** Symbolic execution of [cmd], with [readAuthorizedPeers] taken as a
    whole. *)
Ltac cmd_steps :=
  repeat first
    [ wp_step
    | apply wp_readAuthorizedPeers;
      let r := fresh "r" in let w' := fresh "w'" in let Ht := fresh "Ht" in
      intros r w' Ht; destruct w'; unfold touches_files_only in Ht; world_simpl in *;
      destruct Ht as (? & ? & ? & ? & ? & ? & ? & ? & ?); simplify_eq ].

Lemma elem_of_goodbye (h : Goodbye.handler) (fn : Goodbye.teardown) (pos : nat)
    (r : Goodbye.registry) :
  h ∈ Goodbye.handlers (Goodbye.goodbye fn pos r).2 ↔
  h ∈ Goodbye.handlers r ∨ h = Goodbye.Handler (Goodbye.next_hid r) pos fn.
Proof. cbn. by rewrite elem_of_app, list_elem_of_singleton. Qed.

Lemma snoc3 {A} (l : list A) (a b c : A) : ((l ++ [a]) ++ [b]) ++ [c] = l ++ [a; b] ++ [c].
Proof. by rewrite <- !app_assoc. Qed.

Section Startup.

Context `{Platform}.

Lemma cmd_keeps (o : options) (w0 : world) :
  sockets (cmd o w0).2 = sockets w0 ∧ acts (cmd o w0).2 = acts w0 ∧
  (orderly (registry w0) → orderly (registry (cmd o w0).2)) ∧
  (∀ h, h ∈ Goodbye.handlers (registry (cmd o w0).2) →
        h ∈ Goodbye.handlers (registry w0) ∨ ∀ s, Goodbye.action h ≠ Goodbye.EndSocket s) ∧
  (server (cmd o w0).2 = server w0 ∨ server (cmd o w0).2 = Some None ∨
   server (cmd o w0).2 = Some (Some (protocols_of o, o))).
Proof.
  change (wp (cmd o) (λ _ w,
    sockets w = sockets w0 ∧ acts w = acts w0 ∧
    (orderly (registry w0) → orderly (registry w)) ∧
    (∀ h, h ∈ Goodbye.handlers (registry w) →
          h ∈ Goodbye.handlers (registry w0) ∨ ∀ s, Goodbye.action h ≠ Goodbye.EndSocket s) ∧
    (server w = server w0 ∨ server w = Some None ∨
     server w = Some (Some (protocols_of o, o)))) w0).
  unfold cmd, protocols_of. destruct w0. world_simpl.
  cmd_steps; (split_and!; [done|done|..]).
  all: lazymatch goal with
       | |- orderly _ → _ => intros Ho; repeat first [exact Ho | apply orderly_goodbye]
       | |- ∀ h, h ∈ _ → _ =>
           intros h Hh; repeat (apply elem_of_goodbye in Hh as [Hh| ->]);
           [by left|right; intros s; cbn; congruence..]
       | |- _ => auto
       end.
Qed.
Lemma cmd_firewall_state (o : options) (w0 w : world) :
  watching w0 = [] → cmd o w0 = (Normal tt, w) → firewall_state (disableFirewall o) w.
Proof.
  intros Hw0 Hrun.
  cut (wp (cmd o) (λ r w, r = Normal tt → firewall_state (disableFirewall o) w) w0).
  { intros Hwp. by apply (wp_run _ _ _ _ _ Hwp Hrun). }
  unfold cmd, firewall_state. destruct w0. world_simpl in *. subst.
  destruct (disableFirewall o); cmd_steps; try done; intros _; eauto.
Qed.

End Startup.

Lemma includes_true (xs : list string) (x : string) : includes xs x = true ↔ x ∈ xs.
Proof.
  unfold includes. rewrite existsb_exists. setoid_rewrite String.eqb_eq.
  setoid_rewrite <- list_elem_of_In. split; [by intros (? & ? & ->)|eauto].
Qed.

Lemma paired_filter (protocol p : string) (m : mux) :
  p ≠ protocol → paired protocol (filter (λ b, b.1 ≠ p) m) = paired protocol m.
Proof.
  unfold mux in *. intros Hne. induction m as [|[name notify] m IH]; [done|].
  rewrite filter_cons. cbn. destruct (decide (name ≠ p)) as [Hn|Hn]; cbn.
  - by rewrite IH.
  - apply dec_stable in Hn. subst name. by rewrite decide_False.
Qed.

Lemma paired_pair (protocol p : string) (n cb : callback) (m : mux) :
  paired protocol (pair p n m) = Some cb →
  (p = protocol ∧ cb = n) ∨ paired protocol m = Some cb.
Proof.
  unfold pair. cbn. case_decide as Hp; [intros [= <-]; by left|right].
  by rewrite <- (paired_filter protocol p).
Qed.

Lemma bindings_of_paired (enabled : list string) (o : options) (protocol : string)
    (cb : callback) :
  paired protocol (bindings_of enabled o) = Some cb →
  ∃ name, name ∈ enabled ∧ (name, protocol, creates cb) ∈ PAIRINGS.
Proof.
  unfold bindings_of, PAIRINGS.
  destruct (includes enabled "shell") eqn:H1, (includes enabled "upload") eqn:H2,
    (includes enabled "download") eqn:H3, (includes enabled "tunnel") eqn:H4;
    rewrite ?includes_true in *; intros Hp;
    repeat (apply paired_pair in Hp as [[<- ->]|Hp]); try done;
    first [ exists "shell"; split; [done|]; cbn; rewrite !elem_of_cons; tauto
          | exists "upload"; split; [done|]; cbn; rewrite !elem_of_cons; tauto
          | exists "download"; split; [done|]; cbn; rewrite !elem_of_cons; tauto
          | exists "tunnel"; split; [done|]; cbn; rewrite !elem_of_cons; tauto ].
Qed.

Section Multiplexer.

Context `{Platform}.

Lemma moves_mux_sound (enabled : list string) (w w' : world) :
  mux_sound enabled w → moves w w' → mux_sound enabled w'.
Proof.
  intros (Hsrv & Hmux & Hacts).
  destruct 1 as [| | |protocols o s remote Hserver Hnew|s ev G w' Hq Hr Hs HG
                 |s k m protocol cb channel Hk Hm Hp]; try done.
  - split_and!; [done| |done]. unfold accept. world_simpl.
    intros s' k m. destruct (decide (s = s')) as [<-|Hne].
    + rewrite lookup_insert_eq. intros [= <-] [= <-]. exists o.
      by rewrite (Hsrv _ _ Hserver).
    + rewrite lookup_insert_ne by done. apply Hmux.
  - destruct Hq as (_ & _ & _ & _ & _ & Hq1 & _ & Hq2). unfold mux_sound.
    rewrite Hq1, Hq2, Hs.
    split_and!; [done| |done].
    intros s' k m. rewrite lookup_alter. case_decide as Heq; [|apply Hmux].
    subst s'. destruct (sockets w !! s) as [k0|] eqn:Hk0; cbn; [|done].
    intros [= <-]. destruct (HG k0) as (_ & -> & _). by apply (Hmux s).
  - split_and!; [done..|]. unfold dispatch. world_simpl.
    intros i c s' x. rewrite elem_of_app, elem_of_cons.
    intros [Hin|[[= -> -> -> ->]|Hin]]; [by eapply Hacts| |].
    + destruct (Hmux _ _ _ Hk Hm) as (o & ->). by exists o, protocol, cb.
    + destruct (truthy channel); [|by apply elem_of_nil in Hin].
      apply list_elem_of_singleton in Hin. done.
Qed.

End Multiplexer.

Lemma writeFileSync_absent (fs : gmap string node) (p data : string) :
  fs !! p = None → writeFileSync fs p data = (Normal tt, <[p := File data]> fs).
Proof. intros Hp. unfold writeFileSync. by rewrite Hp. Qed.

Lemma writeFileSync_other (fs : gmap string node) (p q data : string) :
  p ≠ q → (writeFileSync fs p data).2 !! q = fs !! q.
Proof.
  intros Hne. unfold writeFileSync. destruct (fs !! p) as [[|]|]; cbn; try done.
  all: by rewrite lookup_insert_ne.
Qed.

Section Frame.

Context `{Platform}.

Lemma cmd_untouched (o : options) (fs : gmap string node) :
  disableFirewall o = true → path_resolve (f o) ≠ path_resolve (firewall o) →
  untouched (path_resolve (firewall o)) fs (cmd o (boot fs)).2.
Proof.
  intros Hd Hne.
  change (wp (cmd o) (λ _ w, untouched (path_resolve (firewall o)) fs w) (boot fs)).
  unfold cmd, untouched, boot. rewrite Hd. world_simpl.
  do 3 wp_go. destruct (existsSync fs (path_resolve (f o))) eqn:Hex; cbn [negb].
  - cmd_steps; (split_and!; [done| |done| |done]).
    all: try (repeat (apply Forall_app; split); repeat constructor; done).
    all: intros h Hh; repeat (apply elem_of_goodbye in Hh as [Hh| ->]);
         [by apply elem_of_nil in Hh|done..].
  - apply existsSync_false in Hex. do 3 wp_go.
    rewrite (writeFileSync_absent _ _ _ Hex). world_simpl.
    cmd_steps; (split_and!; [by rewrite lookup_insert_ne| |done| |done]).
    all: try (repeat (apply Forall_app; split); repeat constructor; done).
    all: intros h Hh; repeat (apply elem_of_goodbye in Hh as [Hh| ->]);
         [by apply elem_of_nil in Hh|done..].
Qed.

Lemma moves_untouched (fw : string) (fs : gmap string node) (w w' : world) :
  untouched fw fs w → moves w w' → untouched fw fs w'.
Proof.
  intros (Hf & Hc & Hw & Hh & Ha).
  destruct 1 as [|keys Hwatch| |protocols o s remote Hserver Hnew|s ev G w' Hq Hr Hs HG|];
    try done.
  - unfold untouched, accept. world_simpl. split_and!; try done.
    intros h [?| ->]%elem_of_goodbye; [by apply Hh|done].
  - destruct Hq as (Hq1 & Hq2 & Hq3 & Hq4 & _). unfold untouched.
    rewrite Hq1, Hq2, Hq3, Hq4, Hr. split_and!; try done.
    intros h [_ ?]%list_elem_of_filter. by apply Hh.
Qed.

(** A line of the authorized-peers file that does not decode ends the
    start-up before anything is brought up. *)
Lemma cmd_abort (o : options) (content : string) (w0 : world) :
  disableFirewall o = false →
  files w0 !! path_resolve (firewall o) = Some (File content) →
  keys_of content = None →
  ∃ w, cmd o w0 = (Throw Invalid_key, w) ∧
       dht w = dht w0 ∧ server w = server w0 ∧ listening w = listening w0 ∧
       registry w = registry w0.
Proof.
  intros Hd Hfw Hkeys.
  cut (wp (cmd o) (λ r w, r = Throw Invalid_key ∧
         dht w = dht w0 ∧ server w = server w0 ∧ listening w = listening w0 ∧
         registry w = registry w0) w0).
  { unfold wp. destruct (cmd o w0) as [r w]. cbn. intros (-> & ?). by exists w. }
  unfold cmd. rewrite Hd. destruct w0. world_simpl in *.
  do 3 wp_go.
  match goal with |- context [existsSync ?fs ?p] => destruct (existsSync fs p) eqn:Hex end;
    cbn [negb].
  - repeat wp_go.
    eapply wp_of_run; [by apply readAuthorizedPeers_existing|]. by rewrite Hkeys.
  - apply existsSync_false in Hex. do 3 wp_go.
    rewrite (writeFileSync_absent _ _ _ Hex). world_simpl. repeat wp_go.
    eapply wp_of_run.
    { apply (readAuthorizedPeers_existing _ content). world_simpl.
      rewrite lookup_insert_ne; [done|]. intros Heq. rewrite Heq in Hex. congruence. }
    by rewrite Hkeys.
Qed.

End Frame.

Lemma bind_inv {A B} (m : M A) (k : A → M B) (w0 w : world) (r : completion B) :
  bind m k w0 = (r, w) →
  (∃ e, m w0 = (Throw e, w) ∧ r = Throw e) ∨
  (∃ a w1, m w0 = (Normal a, w1) ∧ k a w1 = (r, w)).
Proof.
  unfold bind. destruct (m w0) as [[a|e] w1]; [right; eauto|].
  intros [= <- <-]. left. eauto.
Qed.

Lemma PAIRINGS_name (n1 n2 p1 p2 : string) (c1 c2 : handler_class) :
  (n1, p1, c1) ∈ PAIRINGS → (n2, p2, c2) ∈ PAIRINGS → p1 = p2 ∨ c1 = c2 → n1 = n2.
Proof.
  unfold PAIRINGS. rewrite !elem_of_cons, !elem_of_nil.
  intros [?|[?|[?|[?|[]]]]] [?|[?|[?|[?|[]]]]] [?|?]; simplify_eq; done.
Qed.

Section Claims.

Context `{Platform}.

(** The states that a run of the process goes through satisfy what [cmd]
    establishes and every step keeps. *)
Lemma run_invariant (I : world → Prop) (o : options) (fs : gmap string node)
    (inputs : list input) :
  I (cmd o (boot fs)).2 → (∀ w w', I w → moves w w' → I w') →
  I ((cmd o ;; serve inputs) (boot fs)).2.
Proof.
  intros Hcmd Hstep. unfold bind.
  destruct (cmd o (boot fs)) as [[[]|e] w1]; cbn [snd] in *; [|done].
  by apply serve_invariant.
Qed.

Lemma run_orderly (o : options) (fs : gmap string node) (inputs : list input) :
  orderly (registry ((cmd o ;; serve inputs) (boot fs)).2).
Proof.
  apply (run_invariant (λ w, orderly (registry w))); [|apply moves_orderly].
  apply cmd_keeps, orderly_empty.
Qed.

Lemma run_covered (o : options) (fs : gmap string node) (inputs : list input) :
  covered ((cmd o ;; serve inputs) (boot fs)).2.
Proof.
  apply (run_invariant covered); [|apply moves_covered].
  destruct (cmd_keeps o (boot fs)) as (Hs & _ & _ & Hh & _).
  intros h s Hin Ha. destruct (Hh h Hin) as [[]%elem_of_nil|Hne]. by destruct (Hne s).
Qed.

Lemma run_mux_sound (o : options) (fs : gmap string node) (inputs : list input) :
  mux_sound (items (protocols_of o)) ((cmd o ;; serve inputs) (boot fs)).2.
Proof.
  apply (run_invariant (mux_sound _)); [|apply moves_mux_sound].
  destruct (cmd_keeps o (boot fs)) as (Hs & Ha & _ & _ & Hsrv).
  split_and!.
  - intros ps o'. destruct Hsrv as [-> | [-> | ->]]; [done..|]. by intros [= <- <-].
  - intros s k m. by rewrite Hs.
  - intros i c s x. rewrite Ha. by intros ?%elem_of_nil.
Qed.

Lemma moves_settled (w0 w w' : world) : settled w0 w → moves w w' → settled w0 w'.
Proof.
  unfold settled. intros Hw.
  destruct 1 as [| | | |s ev G w' Hq Hr Hs HG|]; try done.
  destruct Hq as (-> & -> & -> & _ & -> & -> & -> & _). done.
Qed.

Lemma run_settled (o : options) (fs : gmap string node) (inputs : list input) :
  settled (cmd o (boot fs)).2 ((cmd o ;; serve inputs) (boot fs)).2.
Proof.
  apply (run_invariant (settled _)); [by unfold settled|]. apply moves_settled.
Qed.

Lemma cmd_watches (o : options) (w0 w : world) :
  cmd o w0 = (Normal tt, w) →
  watching w = watching w0 ++
    (if disableFirewall o then [] else [path_resolve (firewall o)]).
Proof.
  intros Hrun.
  cut (wp (cmd o) (λ r w, r = Normal tt → watching w = watching w0 ++
         (if disableFirewall o then [] else [path_resolve (firewall o)])) w0).
  { intros Hwp. by apply (wp_run _ _ _ _ _ Hwp Hrun). }
  unfold cmd. destruct w0. world_simpl.
  destruct (disableFirewall o); cmd_steps; try done; intros _; by rewrite ?app_nil_r.
Qed.

(** In a run with the firewall enforced the file watcher is at work. *)
Lemma run_watches (o : options) (fs : gmap string node) (inputs : list input) (w : world) :
  disableFirewall o = false → (cmd o ;; serve inputs) (boot fs) = (Normal tt, w) →
  watching w ≠ [].
Proof.
  intros Hd Hrun.
  pose proof (run_settled o fs inputs) as (_ & _ & Hw & _).
  rewrite Hrun in Hw. cbn [snd] in Hw. rewrite Hw.
  apply bind_inv in Hrun as [(e & _ & [=])|([] & w1 & Hcmd & _)].
  rewrite Hcmd. cbn [snd]. rewrite (cmd_watches _ _ _ Hcmd), Hd. cbn. congruence.
Qed.

(** C1: at handshake, a run without firewall enforcement allows every
    public key; a run with enforcement allows a key exactly when it is, byte
    for byte, one of the keys of the current list of authorized peers, and
    denies it otherwise.  (The hook returns [false] to allow.) *)
Theorem C1_firewall_decision (o : options) (fs : gmap string node) (inputs : list input)
    (w : world) (remote : Buffer) :
  (cmd o ;; serve inputs) (boot fs) = (Normal tt, w) →
  if disableFirewall o then
    onFirewall remote w =
      (Normal false, logged ("Firewall allowed: " +:+ HypercoreId_encode remote) w)
  else
    ∃ keys, allowed w = AList keys ∧
      onFirewall remote w =
        if bool_decide (remote ∈ keys)
        then (Normal false, logged ("Firewall allowed: " +:+ HypercoreId_encode remote) w)
        else (Normal true, logged ("Firewall denied: " +:+ HypercoreId_encode remote) w).
Proof.
  intros Hrun.
  assert (firewall_state (disableFirewall o) w) as Hstate.
  { apply bind_inv in Hrun as [(e & _ & [=])|([] & w1 & Hcmd & Hserve)].
    replace w with (serve inputs w1).2 by by rewrite Hserve.
    apply serve_invariant; [apply moves_firewall_state|].
    by apply (cmd_firewall_state o (boot fs)). }
  rewrite onFirewall_run. unfold firewall_state in Hstate.
  destruct (disableFirewall o).
  - destruct Hstate as [-> _]. done.
  - destruct Hstate as [keys ->]. by exists keys.
Qed.

(** C2: a protocol among shell, upload, download and tunnel that is not in
    the configuration of the run is bound on the multiplexer of no
    connection, and no handler of its class is ever made, whatever the
    peers negotiate. *)
Theorem C2_disabled_protocol_never_bound (o : options) (fs : gmap string node)
    (inputs : list input) (r : completion unit) (w : world)
    (name protocol : string) (cls : handler_class) :
  (cmd o ;; serve inputs) (boot fs) = (r, w) →
  (name, protocol, cls) ∈ PAIRINGS → name ∉ items (protocols_of o) →
  (∀ s k m, sockets w !! s = Some k → muxed k = Some m → paired protocol m = None) ∧
  (∀ i s x, Construct i cls s x ∉ acts w).
Proof.
  intros Hrun Hpair Hoff.
  pose proof (run_mux_sound o fs inputs) as (_ & Hmux & Hacts). rewrite Hrun in *.
  cbn [snd] in *. split.
  - intros s k m Hk Hm. destruct (Hmux s k m Hk Hm) as (o' & ->).
    destruct (paired protocol _) as [cb|] eqn:Hp; [exfalso|done].
    apply bindings_of_paired in Hp as (name' & Hin & Hpair').
    by rewrite (PAIRINGS_name _ _ _ _ _ _ Hpair Hpair') in Hoff by by left.
  - intros i s x Hin. destruct (Hacts _ _ _ _ Hin) as (o' & protocol' & cb & Hp & <-).
    apply bindings_of_paired in Hp as (name' & Hin' & Hpair').
    by rewrite (PAIRINGS_name _ _ _ _ _ _ Hpair Hpair') in Hoff by by right.
Qed.

(** C3, as amended: when the file watcher reports a content all of whose
    record lines (neither blank nor comment) carry a key that decodes, the
    list of authorized peers becomes the list of those keys; when a key does
    not decode, the callback throws before it assigns, so that the list is
    neither cleared nor replaced in part.  Nothing catches that exception:
    in a run with the firewall enforced the process ends with it, in the
    state it was in, and no later input, a handshake no more than another,
    is served on the list that was in force. *)
Theorem C3_reload_all_or_nothing (buf : string) (w : world) :
  (Forall (λ l, is_Some (key_of_line l)) (Configs.record_lines buf) →
   ∃ keys, Forall2 (λ l key, key_of_line l = Some key) (Configs.record_lines buf) keys ∧
           watcher_callback buf w = (Normal tt, with_allowed (AList keys) w)) ∧
  (Exists (λ l, key_of_line l = None) (Configs.record_lines buf) →
   ∃ e, watcher_callback buf w = (Throw e, w) ∧
        ∀ o fs inputs rest,
          disableFirewall o = false →
          (cmd o ;; serve inputs) (boot fs) = (Normal tt, w) →
          serve (FileChange buf :: rest) w = (Throw e, w)).
Proof.
  rewrite watcher_callback_run. split.
  - intros [keys Hkeys]%keys_of_is_Some. rewrite Hkeys. exists keys.
    split; [by apply keys_of_Some|done].
  - intros Hbad%keys_of_None. rewrite Hbad. exists Invalid_key. split; [done|].
    intros o fs inputs rest Hd Hrun.
    pose proof (run_watches o fs inputs w Hd Hrun) as Hw.
    cbn [serve react]. unfold bind, gets. cbn [fst snd].
    destruct (watching w); [done|].
    by rewrite watcher_callback_run, Hbad.
Qed.

(** C4: after any run, a drain of the registry starts the close of the
    server only when the end of every registered socket has settled, and
    starts the destruction of the node only when the close of the server
    has settled; and it does start them. *)
Theorem C4_shutdown_in_tier_order (o : options) (fs : gmap string node)
    (inputs : list input) (r : completion unit) (w : world) (t : list Goodbye.event)
    (h1 h2 : Goodbye.handler) :
  (cmd o ;; serve inputs) (boot fs) = (r, w) →
  Goodbye.shutdown (Goodbye.handlers (registry w)) t = true →
  h1 ∈ Goodbye.handlers (registry w) → h2 ∈ Goodbye.handlers (registry w) →
  ((∃ s, Goodbye.action h1 = Goodbye.EndSocket s) ∧
     Goodbye.action h2 = Goodbye.CloseServer) ∨
  (Goodbye.action h1 = Goodbye.CloseServer ∧ Goodbye.action h2 = Goodbye.DestroyNode) →
  Goodbye.Begin (Goodbye.hid h2) ∈ t ∧
  ∀ t1 t2, t = t1 ++ Goodbye.Begin (Goodbye.hid h2) :: t2 →
           Goodbye.Settled (Goodbye.hid h1) ∈ t1.
Proof.
  intros Hrun Hshut Hh1 Hh2 Hact.
  pose proof (run_orderly o fs inputs) as [Hnd Hall]. rewrite Hrun in *. cbn [snd] in *.
  rewrite Forall_forall in Hall.
  destruct (Hall h1 Hh1) as [_ Hp1], (Hall h2 Hh2) as [_ Hp2].
  assert (Goodbye.position h1 < Goodbye.position h2) as Hlt.
  { rewrite Hp1, Hp2. destruct Hact as [[[s ->] ->]|[-> ->]]; cbn; lia. }
  split.
  - by apply (shutdown_begins _ _ h2 Hshut).
  - intros t1 t2 Ht. by eapply shutdown_order.
Qed.


(** C6: at start-up, an authorized-peers file that does not exist is
    created with the header comment and gives no peers; an existing file
    with a key that does not decode makes [readAuthorizedPeers] throw, and
    [cmd] with it, before anything is brought up; otherwise the keys of the
    record lines are returned, in order. *)
Theorem C6_read_at_startup (p : string) (w : world) :
  (files w !! p = None →
   files w !! path_dirname p = None ∨ files w !! path_dirname p = Some Dir →
   path_dirname p ≠ p →
   ∃ w', readAuthorizedPeers (Filename p) w = (Normal [], w') ∧
         files w' !! p = Some (File default_firewall) ∧
         Configs.record_lines default_firewall = []) ∧
  (∀ content, files w !! p = Some (File content) →
     Exists (λ l, key_of_line l = None) (Configs.record_lines content) →
     (∃ e w', readAuthorizedPeers (Filename p) w = (Throw e, w')) ∧
     ∀ o, disableFirewall o = false → path_resolve (firewall o) = p →
          ∃ e w', cmd o w = (Throw e, w') ∧ dht w' = dht w ∧ server w' = server w ∧
                  listening w' = listening w) ∧
  (∀ content, files w !! p = Some (File content) →
     Forall (λ l, is_Some (key_of_line l)) (Configs.record_lines content) →
     ∃ keys w', Forall2 (λ l key, key_of_line l = Some key)
                        (Configs.record_lines content) keys ∧
                readAuthorizedPeers (Filename p) w = (Normal keys, w') ∧
                files w' = files w).
Proof.
  split_and!.
  - intros Hp Hdir Hne. eexists. split; [by apply readAuthorizedPeers_absent|].
    split; [|done]. world_simpl. by rewrite lookup_insert_eq.
  - intros content Hp Hbad%keys_of_None. split.
    + rewrite (readAuthorizedPeers_existing _ _ _ Hp), Hbad. eauto.
    + intros o Hd Hfw. subst p.
      destruct (cmd_abort o content w Hd Hp Hbad) as (w' & ? & ? & ? & ? & ?).
      by exists Invalid_key, w'.
  - intros content Hp [keys Hkeys]%keys_of_is_Some. exists keys. eexists. split_and!.
    + by apply keys_of_Some.
    + by rewrite (readAuthorizedPeers_existing _ _ _ Hp), Hkeys.
    + done.
Qed.

(** C7: the negotiation of a bound protocol makes one handler of the class
    paired with it; [open()] is called on it, once, when its channel is
    truthy and not at all otherwise; nothing else changes. *)
Theorem C7_one_handler_per_negotiation (s : nat) (k : socket) (m : mux)
    (protocol : string) (cb : callback) (channel : value) (w : world) :
  sockets w !! s = Some k → muxed k = Some m → paired protocol m = Some cb →
  react (Negotiate s protocol channel) w =
  (Normal tt,
   with_acts (acts w ++ [Construct (length (acts w)) (creates cb) s (passes cb)] ++
                        (if truthy channel then [Open (length (acts w))] else [])) w).
Proof.
  intros Hk Hm Hp. cbn [react]. unfold bind, gets. cbn [fst snd].
  rewrite Hk. cbn. rewrite Hm. cbn. rewrite Hp. by rewrite notify_run.
Qed.

(** C8, as amended: without firewall enforcement every peer is allowed, and
    the decision is logged with the line that a match against the list of
    authorized peers is logged with. *)
Theorem C8_allow_is_logged_alike (remote : Buffer) (keys : list Buffer) (w : world) :
  allowed w = ABool true ∨ (allowed w = AList keys ∧ remote ∈ keys) →
  onFirewall remote w =
  (Normal false, logged ("Firewall allowed: " +:+ HypercoreId_encode remote) w).
Proof.
  rewrite onFirewall_run. intros [-> | [-> Hin]]; [done|].
  by rewrite bool_decide_eq_true_2.
Qed.

(** C9, as amended: once the server listens, [cmd] prints the command to
    connect when no list of protocols was configured, and the notice of
    restricted protocols with the key of the server when one was, whichever
    protocols it names. *)
Theorem C9_banner_follows_the_option (o : options) (w0 w : world) :
  cmd o w0 = (Normal tt, w) →
  ∃ keyPair before,
    listening w = Some keyPair ∧
    stdout w = before ++
      match protocol o with
      | None => ["To connect to this shell, on another computer run:";
                 "hypershell " +:+ HypercoreId_encode (publicKey keyPair)]
      | Some _ => ["Running server with restricted protocols";
                   "Server key: " +:+ HypercoreId_encode (publicKey keyPair)]
      end ++ [""].
Proof.
  intros Hrun.
  cut (wp (cmd o) (λ r w, r = Normal tt →
         ∃ keyPair before,
           listening w = Some keyPair ∧
           stdout w = before ++
             match protocol o with
             | None => ["To connect to this shell, on another computer run:";
                        "hypershell " +:+ HypercoreId_encode (publicKey keyPair)]
             | Some _ => ["Running server with restricted protocols";
                          "Server key: " +:+ HypercoreId_encode (publicKey keyPair)]
             end ++ [""]) w0).
  { intros Hwp. by apply (wp_run _ _ _ _ _ Hwp Hrun). }
  unfold cmd. destruct w0. world_simpl.
  destruct (protocol o) as [names|].
  - change (strict_equal (Array ref_commander names) PROTOCOLS) with false.
    cmd_steps; try done; intros _; (eexists _, _; split; [reflexivity|]);
      apply snoc3.
  - change (strict_equal PROTOCOLS PROTOCOLS) with true.
    cmd_steps; try done; intros _; (eexists _, _; split; [reflexivity|]);
      apply snoc3.
Qed.

(** C10: in a run with the firewall disabled (and a key file that is not
    the authorized-peers file), no call of [fs] names the authorized-peers
    file, which stays as it was, absent if it was absent; no watcher is
    installed and none is registered for the shutdown; and every peer is
    allowed. *)
Theorem C10_disabled_firewall_leaves_the_store (o : options) (fs : gmap string node)
    (inputs : list input) (r : completion unit) (w : world) :
  disableFirewall o = true → path_resolve (f o) ≠ path_resolve (firewall o) →
  (cmd o ;; serve inputs) (boot fs) = (r, w) →
  Forall (λ c, c.2 ≠ path_resolve (firewall o)) (fs_calls w) ∧
  files w !! path_resolve (firewall o) = fs !! path_resolve (firewall o) ∧
  watching w = [] ∧
  (∀ h, h ∈ Goodbye.handlers (registry w) →
        Goodbye.action h ≠ Goodbye.UnwatchFirewall) ∧
  ∀ remote, (onFirewall remote w).1 = Normal false.
Proof.
  intros Hd Hne Hrun.
  assert (untouched (path_resolve (firewall o)) fs w) as (Hf & Hc & Hw & Hh & Ha).
  { replace w with ((cmd o ;; serve inputs) (boot fs)).2 by by rewrite Hrun.
    apply (run_invariant (untouched _ _)); [by apply cmd_untouched|].
    apply moves_untouched. }
  split_and!; try done. intros remote. by rewrite onFirewall_run, Ha.
Qed.

End Claims.

(** * Further properties *)

(** ** The events of a socket *)

Lemma called_wiring (ev : string) (pending : option nat) :
  called ev (wiring pending) =
  if decide (ev = "end") then [MirrorEnd]
  else if decide (ev = "close") then
    LogClose :: match pending with Some id => [Unregister id] | None => [] end
  else if decide (ev = "error") then [ReportError]
  else [].
Proof.
  unfold called, wiring.
  repeat case_decide; subst; destruct pending; cbn;
    rewrite ?filter_cons, ?filter_nil; cbn; repeat case_decide; simplify_eq; done.
Qed.

Lemma kept_wiring (ev : string) (pending : option nat) :
  kept ev (wiring pending) = if decide (ev = "close") then wiring None else wiring pending.
Proof.
  unfold kept, wiring.
  case_decide; subst; destruct pending; cbn;
    rewrite ?filter_cons, ?filter_nil; cbn; repeat case_decide; simplify_eq; try done;
    naive_solver.
Qed.

Lemma socket_eta (k : socket) :
  Socket (remotePublicKey k) (listeners k) (keepAlive k) (ended k) (muxed k) = k.
Proof. by destruct k. Qed.

Section Events.

Context `{Platform}.

Lemma run_listeners_run (s : nat) (e : option error) (ls : list listener) (w : world) :
  run_listeners s e ls w =
  (Normal tt, foldl (λ w l, (run_listener s e l w).2) w ls).
Proof.
  revert w. induction ls as [|l ls IH]; intros w; [done|].
  cbn [run_listeners foldl]. unfold bind.
  destruct (run_listener_spec s e l w) as (G & w' & Hrun & _). rewrite Hrun. cbn [snd].
  apply IH.
Qed.

(** [emit] on a socket that [onconnection] has set up. *)
Lemma emit_wired (s : nat) (ev : string) (e : option error) (w : world) (k : socket)
    (pending : option nat) :
  sockets w !! s = Some k → listeners k = wiring pending →
  emit s ev e w =
  (Normal tt,
   if decide (ev = "end") then with_sockets (<[s := hung_up k]> (sockets w)) w
   else if decide (ev = "close") then
     with_registry
       match pending with
       | Some id => Goodbye.unregister id (registry w)
       | None => registry w
       end
       (with_sockets (<[s := gone k]> (sockets w)) (logged (closed_line k) w))
   else if decide (ev = "error") then
     match e with
     | Some error =>
         if decide (code error = Some "ECONNRESET" ∨ code error = Some "ETIMEDOUT") then w
         else with_stderr (stderr w ++ [default "undefined" (code error) +:+ " " +:+
                                        message error]) w
     | None => w
     end
   else w).
Proof.
  intros Hk Hl. unfold emit, bind, gets. cbn [fst snd]. rewrite Hk.
  unfold on_socket, modify. rewrite run_listeners_run. f_equal.
  fold (called ev (listeners k)). rewrite Hl, called_wiring.
  assert (alter (λ k0, Socket (remotePublicKey k0)
                  (filter (λ l, ¬ (l.1.1 = ev ∧ l.1.2 = true)) (listeners k0))
                  (keepAlive k0) (ended k0) (muxed k0)) s (sockets w) =
          <[s := Socket (remotePublicKey k) (kept ev (wiring pending)) (keepAlive k)
                   (ended k) (muxed k)]> (sockets w)) as ->.
  { apply map_eq. intros j. destruct (decide (s = j)) as [<-|Hne].
    - rewrite lookup_alter_eq, lookup_insert_eq, Hk. cbn. by rewrite Hl.
    - by rewrite lookup_alter_ne, lookup_insert_ne. }
  rewrite kept_wiring.
  unfold hung_up, gone, closed_line, logged. rewrite Hl.
  destruct w. world_simpl in *.
  destruct (decide (ev = "end")) as [->|Hend];
    [|destruct (decide (ev = "close")) as [->|Hclose];
      [|destruct (decide (ev = "error")) as [->|Herror]]];
    repeat (case_decide; simplify_eq); cbn [foldl run_listener].
  - unfold socket_end, on_socket, modify. world_simpl.
    by rewrite alter_insert_eq.
  - unfold bind, gets, console_log, modify. world_simpl. rewrite lookup_insert_eq. cbn.
    destruct pending as [id|]; cbn [foldl run_listener snd]; [|done].
    unfold unregister, modify. by world_simpl.
  - rewrite <- Hl, socket_eta, insert_id by done.
    destruct e as [error|]; [|done]. by case_decide.
  - by rewrite <- Hl, socket_eta, insert_id by done.
Qed.

End Events.

(** ** The connections of a run *)

Lemma bindings_of_passes (enabled : list string) (o : options) (protocol : string)
    (cb : callback) :
  paired protocol (bindings_of enabled o) = Some cb →
  passes cb = restrictions_for o (creates cb).
Proof.
  unfold bindings_of.
  destruct (includes enabled "shell"), (includes enabled "upload"),
    (includes enabled "download"), (includes enabled "tunnel");
    intros Hp; repeat (apply paired_pair in Hp as [[<- ->]|Hp]); done.
Qed.

Lemma bindings_of_enabled (enabled : list string) (o : options) (name protocol : string)
    (cls : handler_class) :
  (name, protocol, cls) ∈ PAIRINGS → name ∈ enabled →
  paired protocol (bindings_of enabled o) = Some (Notify cls (restrictions_for o cls)).
Proof.
  unfold PAIRINGS. rewrite !elem_of_cons, elem_of_nil.
  intros [?|[?|[?|[?|[]]]]] Hin; simplify_eq; apply includes_true in Hin;
    unfold bindings_of; rewrite Hin;
    destruct (includes enabled "shell"), (includes enabled "upload"),
      (includes enabled "download"), (includes enabled "tunnel"); done.
Qed.

Section Connections.

Context `{Platform}.

Lemma react_handshake (s : nat) (remote : Buffer) (w : world) :
  react (Handshake s remote) w =
  match server w, listening w, sockets w !! s with
  | Some (Some (protocols, o)), Some _, None =>
      match allowed w with
      | ABool true => (Normal tt, accept protocols o s remote w)
      | ABool false => (Throw TypeError_not_iterable, w)
      | AList keys =>
          if bool_decide (remote ∈ keys) then (Normal tt, accept protocols o s remote w)
          else (Normal tt, logged ("Firewall denied: " +:+ HypercoreId_encode remote) w)
      end
  | _, _, _ => (Normal tt, w)
  end.
Proof.
  cbn [react]. unfold bind, gets. cbn [fst snd].
  destruct (server w) as [[[protocols o]|]|] eqn:Hserver; try done.
  destruct (listening w); [|done].
  destruct (sockets w !! s) eqn:Hs; [done|].
  rewrite onFirewall_run.
  destruct (allowed w) as [[|]|keys]; [|done|destruct (bool_decide _)]; try done.
  all: unfold modify; rewrite onconnection_run; cbn [snd]; f_equal.
  all: unfold accept, logged; destruct w; world_simpl; by rewrite alter_insert_eq.
Qed.

Lemma react_negotiate (s : nat) (protocol : string) (channel : value) (w : world) :
  react (Negotiate s protocol channel) w =
  (Normal tt,
   match (sockets w !! s ≫= muxed) ≫= paired protocol with
   | Some cb => dispatch cb s channel w
   | None => w
   end).
Proof.
  cbn [react]. unfold bind, gets. cbn [fst snd].
  destruct (_ ≫= paired protocol) as [cb|]; [|done]. by rewrite notify_run.
Qed.

Lemma serve_keeps (I : world → Prop) (inputs : list input) (w : world) :
  (∀ i w, I w → I (react i w).2) → I w → I (serve inputs w).2.
Proof.
  intros Hstep. revert w. induction inputs as [|i inputs IH]; intros w Hw; [done|].
  cbn [serve]. unfold bind.
  pose proof (Hstep i w Hw) as Hi.
  destruct (react i w) as [[[]|e] w1]; cbn [snd] in *; [by apply IH|done].
Qed.

Lemma kept_up_accept (o : options) (ps : array) (o' : options) (s : nat) (remote : Buffer)
    (w : world) :
  kept_up o w → server w = Some (Some (ps, o')) → sockets w !! s = None →
  kept_up o (accept ps o' s remote w).
Proof.
  intros (Hsrv & Hord & Hsock & Hacts) Hserver Hnew.
  destruct (Hsrv _ _ Hserver) as [-> ->].
  split_and!; [done| |  |done].
  - by apply (orderly_goodbye (Goodbye.EndSocket s)).
  - unfold accept. world_simpl. intros s' k.
    destruct (decide (s = s')) as [<-|Hne].
    + rewrite lookup_insert_eq. intros [= <-]. cbn. split_and!; [done..|].
      exists (Some (Goodbye.next_hid (registry w))). split; [done|].
      intros id [= <-]. apply elem_of_goodbye. by right.
    + rewrite lookup_insert_ne by done. intros Hk.
      destruct (Hsock _ _ Hk) as (? & ? & pending & ? & Hreg). split_and!; [done..|].
      exists pending. split; [done|]. intros id Hid. apply elem_of_goodbye. left. by apply Hreg.
Qed.

Lemma teardown_of_inj (hs : list Goodbye.handler) (s s' id : nat) :
  NoDup (Goodbye.hid <$> hs) → teardown_of s id ∈ hs → teardown_of s' id ∈ hs → s = s'.
Proof.
  induction hs as [|h hs IH]; [by intros _ ?%elem_of_nil|].
  rewrite fmap_cons, NoDup_cons, !elem_of_cons. intros [Hh Hnd] [H1|H1] [H2|H2].
  - unfold teardown_of in *. congruence.
  - destruct Hh. subst h. apply list_elem_of_fmap. by exists (teardown_of s' id).
  - destruct Hh. subst h. apply list_elem_of_fmap. by exists (teardown_of s id).
  - by apply IH.
Qed.

Lemma react_kept_up (o : options) (i : input) (w : world) :
  kept_up o w → kept_up o (react i w).2.
Proof.
  intros Hw. pose proof Hw as (Hsrv & Hord & Hsock & Hacts).
  destruct i as [buf|s remote|s ev e|s protocol channel].
  - cbn [react]. unfold bind, gets. cbn [fst snd].
    destruct (watching w); [done|]. rewrite watcher_callback_run.
    by destruct (keys_of buf).
  - rewrite react_handshake.
    destruct (server w) as [[[ps o']|]|] eqn:Hserver; try done.
    destruct (listening w); [|done].
    destruct (sockets w !! s) eqn:Hs; [done|].
    destruct (allowed w) as [[|]|keys]; [|done|destruct (bool_decide _)]; try done.
    all: by apply kept_up_accept.
  - cbn [react]. destruct (sockets w !! s) as [k|] eqn:Hk.
    2:{ unfold emit, bind, gets. cbn [fst snd]. by rewrite Hk. }
    destruct (Hsock _ _ Hk) as (Hka & Hmux & pending & Hl & Hreg).
    rewrite (emit_wired _ _ _ _ _ _ Hk Hl). cbn [snd].
    destruct (decide (ev = "end")) as [->|Hend];
      [|destruct (decide (ev = "close")) as [->|Hclose];
        [|destruct (decide (ev = "error")) as [->|Herror]]].
    + split_and!; [done..| |done]. world_simpl. intros s' k'.
      destruct (decide (s = s')) as [<-|Hne].
      * rewrite lookup_insert_eq. intros [= <-]. cbn. split_and!; [done..|]. by exists pending.
      * rewrite lookup_insert_ne by done. apply Hsock.
    + destruct Hord as [Hnd Hall].
      split_and!; [done| | |done]; world_simpl.
      * destruct pending as [id|]; [|done].
        pose proof (orderly_spared [Unregister id] (registry w) (conj Hnd Hall)) as Hsp.
        by rewrite spared_unregister in Hsp.
      * intros s' k'. destruct (decide (s = s')) as [<-|Hne].
        { rewrite lookup_insert_eq. intros [= <-]. cbn. split_and!; [done..|].
          by exists None. }
        rewrite lookup_insert_ne by done. intros Hk'.
        destruct (Hsock _ _ Hk') as (? & ? & pending' & ? & Hreg'). split_and!; [done..|].
        exists pending'. split; [done|]. intros id' Hid'.
        destruct pending as [id|]; [|by apply Hreg'].
        cbn. apply list_elem_of_filter. split; [|by apply Hreg']. cbn. intros ->.
        apply Hne. eapply teardown_of_inj; [exact Hnd|by apply Hreg|by apply Hreg'].
    + destruct e as [error|]; [|done]. by case_decide.
    + done.
  - rewrite react_negotiate. cbn [snd].
    destruct (sockets w !! s) as [k|] eqn:Hk; [|done]. cbn.
    destruct (Hsock _ _ Hk) as (Hka & Hmux & _). rewrite Hmux. cbn.
    destruct (paired protocol _) as [cb|] eqn:Hp; [|done].
    split_and!; [done..|]. unfold dispatch. world_simpl.
    intros i c s' x. rewrite elem_of_app, elem_of_cons.
    intros [Hin|[[= -> -> -> ->]|Hin]]; [by eapply Hacts| |].
    + by eapply bindings_of_passes.
    + destruct (truthy channel); [|by apply elem_of_nil in Hin].
      by apply list_elem_of_singleton in Hin.
Qed.

End Connections.

(** ** The start-up and the file system *)

Ltac paths_ok :=
  repeat first [ apply Forall_nil_2 | apply Forall_cons_2; [cbn; auto|] ].

Section Files.

Context `{Platform}.

Lemma readAuthorizedPeers_reads (p : string) (w : world) :
  reads_peers p w (readAuthorizedPeers (Filename p) w).2.
Proof.
  change (wp (readAuthorizedPeers (Filename p)) (λ _ w', reads_peers p w w') w).
  unfold readAuthorizedPeers, reads_peers, touches_files_only, notice. destruct w. world_simpl.
  do 3 wp_go.
  match goal with |- context [existsSync ?fs _] => destruct (existsSync fs p) eqn:Hex end;
    cbn [negb].
  - repeat (wp_step || (eapply wp_of_run; [apply map_decode_run|]; world_simpl)).
    all: split_and!; try done; try (by left).
    all: eexists; split; [by rewrite <- app_assoc|]; paths_ok.
  - apply existsSync_false in Hex.
    do 4 wp_go. do 2 wp_go.
    assert (∀ l (a b : string * string), (l ++ [a]) ++ [b] = l ++ [a; b]) as Hsnoc
      by (intros; by rewrite <- app_assoc).
    unfold mkdirSync_recursive.
    destruct (_ !! path_dirname p) as [[c|]|] eqn:Hd; cbn [fst snd].
    + split_and!; try done; [|by right].
      eexists. split; [apply Hsnoc|]. paths_ok.
    + wp_go. unfold writeFileSync_wx. rewrite Hex, Hd. cbn [fst snd].
      do 3 wp_go. unfold readFileSync. rewrite lookup_insert_eq.
      eapply wp_of_run; [apply map_decode_run|].
      unfold default_firewall. rewrite parse_default_firewall. cbn [mapM]. world_simpl.
      split_and!; try done; [by apply insert_subseteq| |  |by right].
      * intros q Hq _. by rewrite lookup_insert_ne.
      * eexists. split; [by rewrite <- !app_assoc|]. paths_ok.
    + wp_go. unfold writeFileSync_wx.
      destruct (decide (path_dirname p = p)) as [Heq|Hne].
      * rewrite Heq, lookup_insert_eq. cbn [fst snd].
        split_and!; try done; [by apply insert_subseteq| | |by right].
        -- intros q Hq _. by rewrite lookup_insert_ne.
        -- eexists. split; [by rewrite <- !app_assoc|]. paths_ok.
      * rewrite lookup_insert_ne, Hex, lookup_insert_eq by done. cbn [fst snd].
        do 3 wp_go. unfold readFileSync. rewrite lookup_insert_eq.
        eapply wp_of_run; [apply map_decode_run|].
        unfold default_firewall. rewrite parse_default_firewall. cbn [mapM]. world_simpl.
        split_and!; try done; [| | |by right].
        -- etrans; [|apply insert_subseteq; by rewrite lookup_insert_ne].
           by apply insert_subseteq.
        -- intros q Hq Hq'. by rewrite !lookup_insert_ne.
        -- eexists. split; [by rewrite <- !app_assoc|]. paths_ok.
Qed.

Lemma wp_reads_peers (p : string) (Q : completion (list Buffer) → world → Prop) (w : world) :
  (∀ r w', readAuthorizedPeers (Filename p) w = (r, w') → reads_peers p w w' → Q r w') →
  wp (readAuthorizedPeers (Filename p)) Q w.
Proof.
  intros HQ. apply HQ; [by destruct (readAuthorizedPeers _ w)|].
  apply readAuthorizedPeers_reads.
Qed.

(** The file that is not there is made, or the call throws. *)
Lemma readAuthorizedPeers_fresh (p : string) (w w' : world) (keys : list Buffer) :
  files w !! p = None → readAuthorizedPeers (Filename p) w = (Normal keys, w') →
  keys = [] ∧ files w' !! p = Some (File default_firewall).
Proof.
  intros Hex Hrun.
  cut (wp (readAuthorizedPeers (Filename p)) (λ r w', ∀ keys, r = Normal keys →
         keys = [] ∧ files w' !! p = Some (File default_firewall)) w).
  { intros Hwp. by apply (wp_run _ _ _ _ _ Hwp Hrun). }
  clear Hrun. unfold readAuthorizedPeers. destruct w. world_simpl in *.
  do 3 wp_go. rewrite (proj2 (existsSync_false _ _)) by done. cbn [negb].
  do 4 wp_go. do 2 wp_go. unfold mkdirSync_recursive.
  destruct (_ !! path_dirname p) as [[c|]|] eqn:Hd; cbn [fst snd]; [done| |].
  - wp_go. unfold writeFileSync_wx. rewrite Hex, Hd. cbn [fst snd].
    do 3 wp_go. unfold readFileSync. rewrite lookup_insert_eq.
    eapply wp_of_run; [apply map_decode_run|].
    unfold default_firewall. rewrite parse_default_firewall. cbn [mapM]. world_simpl.
    intros ? [= <-]. by rewrite lookup_insert_eq.
  - wp_go. unfold writeFileSync_wx.
    destruct (decide (path_dirname p = p)) as [Heq|Hne].
    + rewrite Heq, lookup_insert_eq. by cbn [fst snd].
    + rewrite lookup_insert_ne, Hex, lookup_insert_eq by done. cbn [fst snd].
      do 3 wp_go. unfold readFileSync. rewrite lookup_insert_eq.
      eapply wp_of_run; [apply map_decode_run|].
      unfold default_firewall. rewrite parse_default_firewall. cbn [mapM]. world_simpl.
      intros ? [= <-]. by rewrite lookup_insert_eq.
Qed.

End Files.

(** Symbolic execution of [cmd], with what [readAuthorizedPeers] does to the
    file system kept. *)
Ltac startup_steps :=
  repeat first
    [ wp_step
    | apply wp_reads_peers;
      let r := fresh "r" in let w' := fresh "w'" in
      let Hr := fresh "Hr" in let Ht := fresh "Ht" in
      intros r w' Hr Ht; destruct w'; unfold reads_peers, touches_files_only in Ht;
      world_simpl in *;
      destruct Ht as ((? & ? & ? & ? & ? & ? & ? & ? & ?) & ? & ? & (? & ? & ?) & ?);
      simplify_eq ].

Section Growth.

Context `{Platform}.

Lemma cmd_grows (o : options) (w0 : world) : files w0 ⊆ files (cmd o w0).2.
Proof.
  change (wp (cmd o) (λ _ w, files w0 ⊆ files w) w0).
  unfold cmd. destruct w0. world_simpl.
  do 3 wp_go.
  match goal with |- context [existsSync ?fs ?p] => destruct (existsSync fs p) eqn:Hex end;
    cbn [negb].
  - startup_steps; done.
  - apply existsSync_false in Hex. do 3 wp_go.
    rewrite (writeFileSync_absent _ _ _ Hex). world_simpl.
    startup_steps; try (by apply insert_subseteq).
    all: etrans; [by apply insert_subseteq|done].
Qed.

End Growth.

Section Settled.

Context `{Platform}.

Lemma run_keeps (I : world → Prop) (o : options) (fs : gmap string node)
    (inputs : list input) :
  I (cmd o (boot fs)).2 → (∀ i w, I w → I (react i w).2) →
  I ((cmd o ;; serve inputs) (boot fs)).2.
Proof.
  intros Hcmd Hstep. unfold bind.
  destruct (cmd o (boot fs)) as [[[]|e] w1]; cbn [snd] in *; [|done].
  by apply serve_keeps.
Qed.

Lemma cmd_kept_up (o : options) (fs : gmap string node) : kept_up o (cmd o (boot fs)).2.
Proof.
  destruct (cmd_keeps o (boot fs)) as (Hs & Ha & Hord & _ & Hsrv).
  split_and!.
  - intros ps o'. destruct Hsrv as [-> | [-> | ->]]; [done..|]. by intros [= <- <-].
  - apply Hord, orderly_empty.
  - intros s k. by rewrite Hs.
  - intros i c s x. rewrite Ha. by intros ?%elem_of_nil.
Qed.

Lemma run_kept_up (o : options) (fs : gmap string node) (inputs : list input) :
  kept_up o ((cmd o ;; serve inputs) (boot fs)).2.
Proof. apply (run_keeps (kept_up o)); [apply cmd_kept_up|apply react_kept_up]. Qed.

(** X1: a run never replaces or removes what the file system holds at the
    start: every file and directory is there at the end, with its
    content. *)
Theorem X1_existing_files_are_kept (o : options) (fs : gmap string node)
    (inputs : list input) (r : completion unit) (w : world) (p : string) (n : node) :
  (cmd o ;; serve inputs) (boot fs) = (r, w) → fs !! p = Some n → files w !! p = Some n.
Proof.
  intros Hrun Hp.
  pose proof (run_settled o fs inputs) as (Hf & _). rewrite Hrun in Hf. cbn [snd] in Hf.
  rewrite Hf. by apply (lookup_weaken _ _ _ _ Hp), (cmd_grows o (boot fs)).
Qed.

(** X2: the calls of [fs] of a run are those of the start-up, and each names
    the key file, the authorized-peers file or the directory of that file;
    the callbacks call [fs] never. *)
Theorem X2_fs_calls_are_confined (o : options) (fs : gmap string node)
    (inputs : list input) (r : completion unit) (w : world) :
  (cmd o ;; serve inputs) (boot fs) = (r, w) →
  fs_calls w = fs_calls (cmd o (boot fs)).2 ∧
  Forall (λ c, c.2 = path_resolve (f o) ∨ c.2 = path_resolve (firewall o) ∨
               c.2 = path_dirname (path_resolve (firewall o))) (fs_calls w).
Proof.
  intros Hrun.
  pose proof (run_settled o fs inputs) as (_ & Hc & _). rewrite Hrun in Hc. cbn [snd] in Hc.
  split; [done|]. rewrite Hc.
  change (wp (cmd o) (λ _ w, Forall (λ c, c.2 = path_resolve (f o) ∨
            c.2 = path_resolve (firewall o) ∨
            c.2 = path_dirname (path_resolve (firewall o))) (fs_calls w)) (boot fs)).
  unfold cmd, boot. world_simpl.
  startup_steps.
  all: repeat (apply Forall_app; split);
       first [ by paths_ok
             | eapply Forall_impl; [eassumption|]; cbn; tauto ].
Qed.

End Settled.

Section Boot.

Context `{Platform}.

(** X3: the server listens with the key pair of the seed that the key file
    holds, white space around it left aside, when the file exists. *)
Theorem X3_identity_from_key_file (o : options) (w0 w : world) (text : string) :
  files w0 !! path_resolve (f o) = Some (File text) →
  cmd o w0 = (Normal tt, w) →
  ∃ seed, HypercoreId_decode (trim text) = Some seed ∧
          listening w = Some (DHT_keyPair seed) ∧
          listen_failure (DHT_keyPair seed) = None.
Proof.
  intros Hkey Hrun.
  cut (wp (cmd o) (λ r w, r = Normal tt →
         ∃ seed, HypercoreId_decode (trim text) = Some seed ∧
                 listening w = Some (DHT_keyPair seed) ∧
                 listen_failure (DHT_keyPair seed) = None) w0).
  { intros Hwp. by apply (wp_run _ _ _ _ _ Hwp Hrun). }
  unfold cmd. destruct w0. world_simpl in *.
  do 3 wp_go. rewrite (proj2 (existsSync_true _ _)) by (rewrite Hkey; eauto). cbn [negb].
  startup_steps; try done.
  all: intros _;
    match goal with
    | Hread : readFileSync ?fs _ = Normal _ |- _ =>
        unfold readFileSync in Hread;
        first [ rewrite Hkey in Hread
              | rewrite (lookup_weaken _ fs _ _ Hkey) in Hread by done ];
        simplify_eq
    end;
    match goal with
    | Hd : Some (trim _) ≫= _ = Some ?b |- _ => exists b; by split_and!
    end.
Qed.

(** X4: a key file whose content, trimmed, is no seed stops the start-up:
    [cmd] throws having made no node and no server, and having registered
    nothing but, at most, the release of the file watcher. *)
Theorem X4_corrupt_key_file_stops_the_startup (o : options) (w0 : world) (text : string) :
  files w0 !! path_resolve (f o) = Some (File text) →
  HypercoreId_decode (trim text) = None →
  ∃ e w, cmd o w0 = (Throw e, w) ∧
         dht w = dht w0 ∧ server w = server w0 ∧ listening w = listening w0 ∧
         ∀ h, h ∈ Goodbye.handlers (registry w) →
              h ∈ Goodbye.handlers (registry w0) ∨
              Goodbye.action h = Goodbye.UnwatchFirewall.
Proof.
  intros Hkey Hbad.
  cut (wp (cmd o) (λ r w, (∃ e, r = Throw e) ∧
         dht w = dht w0 ∧ server w = server w0 ∧ listening w = listening w0 ∧
         ∀ h, h ∈ Goodbye.handlers (registry w) →
              h ∈ Goodbye.handlers (registry w0) ∨
              Goodbye.action h = Goodbye.UnwatchFirewall) w0).
  { unfold wp. destruct (cmd o w0) as [r w]. cbn. intros ((e & ->) & ?). by exists e, w. }
  unfold cmd. destruct w0. world_simpl in *.
  do 3 wp_go. rewrite (proj2 (existsSync_true _ _)) by (rewrite Hkey; eauto). cbn [negb].
  startup_steps.
  all: try match goal with
    | Hread : readFileSync ?fs _ = _ |- _ =>
        unfold readFileSync in Hread;
        first [ rewrite Hkey in Hread
              | rewrite (lookup_weaken _ fs _ _ Hkey) in Hread by done ];
        simplify_eq
    end.
  all: try match goal with Hd : Some (trim _) ≫= _ = Some _ |- _ =>
         cbn in Hd; congruence end.
  all: (split; [by eexists|]); split_and!; try done.
  all: intros h Hh; repeat (apply elem_of_goodbye in Hh as [Hh| ->]); auto.
Qed.

(** X5: when [server.listen] rejects, [cmd] rejects with it: the server is
    not listening and no line about connecting is printed, while the node
    and the server that were made stay registered for the shutdown.  (Where
    the node was not made, the authorized-peers file had stopped the
    start-up before.) *)
Theorem X5_listen_failure_is_passed_on (o : options) (w0 : world) (text : string)
    (seed : Buffer) (e : error) :
  files w0 !! path_resolve (f o) = Some (File text) →
  HypercoreId_decode (trim text) = Some seed →
  listen_failure (DHT_keyPair seed) = Some e →
  ∃ e' w, cmd o w0 = (Throw e', w) ∧ listening w = listening w0 ∧
    (stdout w = stdout w0 ∨
     stdout w = stdout w0 ++ [notice (path_resolve (firewall o))]) ∧
    (dht w = dht w0 ∨
     (e' = e ∧ dht w = Some (testnet o) ∧ server w = Some (Some (protocols_of o, o)) ∧
      ∃ i j, Goodbye.Handler i 3 Goodbye.DestroyNode ∈ Goodbye.handlers (registry w) ∧
             Goodbye.Handler j 2 Goodbye.CloseServer ∈ Goodbye.handlers (registry w))).
Proof.
  intros Hkey Hseed Hlisten.
  cut (wp (cmd o) (λ r w, (∃ e', r = Throw e' ∧
         (dht w = dht w0 ∨
          (e' = e ∧ dht w = Some (testnet o) ∧ server w = Some (Some (protocols_of o, o)) ∧
           ∃ i j, Goodbye.Handler i 3 Goodbye.DestroyNode ∈ Goodbye.handlers (registry w) ∧
                  Goodbye.Handler j 2 Goodbye.CloseServer ∈ Goodbye.handlers (registry w)))) ∧
         listening w = listening w0 ∧
         (stdout w = stdout w0 ∨
          stdout w = stdout w0 ++ [notice (path_resolve (firewall o))])) w0).
  { unfold wp. destruct (cmd o w0) as [r w]. cbn. intros ((e' & -> & ?) & ? & ?).
    by exists e', w. }
  unfold cmd, protocols_of. destruct w0. world_simpl in *.
  do 3 wp_go. rewrite (proj2 (existsSync_true _ _)) by (rewrite Hkey; eauto). cbn [negb].
  startup_steps.
  all: try match goal with
    | Hread : readFileSync ?fs _ = _ |- _ =>
        unfold readFileSync in Hread;
        first [ rewrite Hkey in Hread
              | rewrite (lookup_weaken _ fs _ _ Hkey) in Hread by done ];
        simplify_eq
    end.
  all: try match goal with Hd : Some (trim _) ≫= _ = _ |- _ =>
         cbn in Hd; rewrite Hseed in Hd; simplify_eq end.
  all: try match goal with Hl : listen_failure _ = _ |- _ =>
         rewrite Hlisten in Hl; simplify_eq end.
  all: split_and!; try done; try (by left).
  all: eexists; split; [done|]; first [by left|right].
  all: split_and!; try done; eexists _, _; split; apply elem_of_goodbye;
       [left; apply elem_of_goodbye|]; by right.
Qed.

(** X6: a start-up that succeeds from a fresh process leaves a node (on the
    test network when asked for), a server with the protocols and options of
    the run, the watcher on the authorized-peers file when the firewall is
    enforced, no connection yet, and these teardown actions registered, in
    this order: the release of the watcher (with enforcement) and the
    destruction of the node at position 3, the close of the server at
    position 2. *)
Theorem X6_what_the_startup_leaves (o : options) (fs : gmap string node) (w : world) :
  cmd o (boot fs) = (Normal tt, w) →
  (λ h, (Goodbye.action h, Goodbye.position h)) <$> Goodbye.handlers (registry w) =
    startup_teardowns o ∧
  dht w = Some (testnet o) ∧ server w = Some (Some (protocols_of o, o)) ∧
  watching w = (if disableFirewall o then [] else [path_resolve (firewall o)]) ∧
  sockets w = ∅ ∧ acts w = [].
Proof.
  intros Hrun.
  cut (wp (cmd o) (λ r w, r = Normal tt →
         (λ h, (Goodbye.action h, Goodbye.position h)) <$> Goodbye.handlers (registry w) =
           startup_teardowns o ∧
         dht w = Some (testnet o) ∧ server w = Some (Some (protocols_of o, o)) ∧
         watching w = (if disableFirewall o then [] else [path_resolve (firewall o)]) ∧
         sockets w = ∅ ∧ acts w = []) (boot fs)).
  { intros Hwp. by apply (wp_run _ _ _ _ _ Hwp Hrun). }
  unfold cmd, protocols_of, startup_teardowns, boot. world_simpl.
  destruct (disableFirewall o); cmd_steps; try done; intros _; by split_and!.
Qed.

(** X7: a server that starts with the firewall enforced and finds no
    authorized-peers file makes the file with its header line, and from then
    on denies every peer (until the file is changed). *)
Theorem X7_new_firewall_admits_nobody (o : options) (fs : gmap string node) (w : world) :
  disableFirewall o = false →
  fs !! path_resolve (firewall o) = None →
  path_resolve (f o) ≠ path_resolve (firewall o) →
  cmd o (boot fs) = (Normal tt, w) →
  files w !! path_resolve (firewall o) = Some (File default_firewall) ∧
  allowed w = AList [] ∧
  ∀ remote, onFirewall remote w =
    (Normal true, logged ("Firewall denied: " +:+ HypercoreId_encode remote) w).
Proof.
  intros Hd Hfw Hne Hrun.
  cut (files w !! path_resolve (firewall o) = Some (File default_firewall) ∧
       allowed w = AList []).
  { intros [? Ha]. split_and!; [done..|]. intros remote.
    rewrite onFirewall_run, Ha. rewrite bool_decide_eq_false_2; [done|].
    apply not_elem_of_nil. }
  revert Hrun.
  cut (wp (cmd o) (λ r w, r = Normal tt →
         files w !! path_resolve (firewall o) = Some (File default_firewall) ∧
         allowed w = AList []) (boot fs)).
  { intros Hwp Hrun. by apply (wp_run _ _ _ _ _ Hwp Hrun). }
  unfold cmd, boot. rewrite Hd. world_simpl.
  do 3 wp_go. destruct (existsSync fs (path_resolve (f o))) eqn:Hex; cbn [negb].
  - startup_steps; try done; intros _.
    all: match goal with Hr : readAuthorizedPeers _ _ = _ |- _ =>
           by apply readAuthorizedPeers_fresh in Hr as [-> ?] end.
  - apply existsSync_false in Hex. do 3 wp_go.
    rewrite (writeFileSync_absent _ _ _ Hex). world_simpl.
    startup_steps; try done; intros _.
    all: match goal with Hr : readAuthorizedPeers _ _ = _ |- _ =>
           apply readAuthorizedPeers_fresh in Hr as [-> ?];
           [done|by world_simpl; rewrite lookup_insert_ne] end.
Qed.

(** X8: in a run with the firewall enforced, a change of the
    authorized-peers file whose keys all decode takes effect at once: the
    next handshake is decided by the keys of the new content, whatever the
    list was before. *)
Theorem X8_reload_decides_the_next_handshake (o : options) (fs : gmap string node)
    (inputs : list input) (w : world) (buf : string) (keys : list Buffer) (remote : Buffer) :
  disableFirewall o = false →
  (cmd o ;; serve inputs) (boot fs) = (Normal tt, w) →
  keys_of buf = Some keys →
  (react (FileChange buf) ;; onFirewall remote) w =
  if bool_decide (remote ∈ keys)
  then (Normal false, logged ("Firewall allowed: " +:+ HypercoreId_encode remote)
                             (with_allowed (AList keys) w))
  else (Normal true, logged ("Firewall denied: " +:+ HypercoreId_encode remote)
                            (with_allowed (AList keys) w)).
Proof.
  intros Hd Hrun Hkeys.
  pose proof (run_watches o fs inputs w Hd Hrun) as Hw.
  unfold bind at 1. cbn [react]. unfold bind at 1, gets. cbn [fst snd].
  destruct (watching w); [done|].
  by rewrite watcher_callback_run, Hkeys, onFirewall_run.
Qed.

End Boot.

Section Lifecycle.

Context `{Platform}.

(** X9: on every connection of a run, the negotiation of the protocol of an
    enabled name makes a handler of the class paired with it, with the
    options of the run if it is the tunnel and with none otherwise, and
    opens it when its channel is truthy. *)
Theorem X9_enabled_protocol_is_served (o : options) (fs : gmap string node)
    (inputs : list input) (r : completion unit) (w : world) (s : nat)
    (name protocol : string) (cls : handler_class) (channel : value) :
  (cmd o ;; serve inputs) (boot fs) = (r, w) →
  is_Some (sockets w !! s) →
  (name, protocol, cls) ∈ PAIRINGS → name ∈ items (protocols_of o) →
  react (Negotiate s protocol channel) w =
  (Normal tt,
   with_acts (acts w ++ [Construct (length (acts w)) cls s (restrictions_for o cls)] ++
                        (if truthy channel then [Open (length (acts w))] else [])) w).
Proof.
  intros Hrun [k Hk] Hpair Hin.
  pose proof (run_kept_up o fs inputs) as (_ & _ & Hsock & _).
  rewrite Hrun in Hsock. cbn [snd] in Hsock.
  destruct (Hsock _ _ Hk) as (_ & Hmux & _).
  rewrite react_negotiate, Hk. cbn. rewrite Hmux. cbn.
  by rewrite (bindings_of_enabled _ _ _ _ _ Hpair Hin).
Qed.

(** X10: every handler that a run makes was given the options of its class:
    the restrictions of [--tunnel-host] and [--tunnel-port] for the tunnel,
    nothing for the shell, the upload and the download. *)
Theorem X10_restrictions_reach_the_tunnel_only (o : options) (fs : gmap string node)
    (inputs : list input) (r : completion unit) (w : world)
    (i : nat) (c : handler_class) (s : nat) (x : option restrictions) :
  (cmd o ;; serve inputs) (boot fs) = (r, w) →
  Construct i c s x ∈ acts w →
  x = match c with
      | LocalTunnelServer => Some (tunnelHost o, tunnelPort o)
      | ShellServer | UploadServer | DownloadServer => None
      end.
Proof.
  intros Hrun Hin.
  pose proof (run_kept_up o fs inputs) as (_ & _ & _ & Hacts).
  rewrite Hrun in Hacts. cbn [snd] in Hacts.
  by apply (Hacts i c s x).
Qed.

(** X11: every socket of a run is as [onconnection] set it up: keep-alive
    at 5000 ms, a multiplexer with the bindings of the enabled protocols and
    no other, and the listeners of ['end'], ['close'] and ['error'].  The
    cancellation of the teardown action follows them, to be called once on
    ['close'], exactly as long as that action is registered, at position 1,
    under the identity that the listener cancels; when no teardown action
    is registered for the socket, no cancellation is left.  An event other
    than ['close'] leaves the listeners as they are, and a ['close'] leaves
    the three that stay. *)
Theorem X11_every_connection_is_set_up (o : options) (fs : gmap string node)
    (inputs : list input) (r : completion unit) (w : world) (s : nat) (k : socket) :
  (cmd o ;; serve inputs) (boot fs) = (r, w) →
  sockets w !! s = Some k →
  keepAlive k = Some 5000 ∧
  muxed k = Some (bindings_of (items (protocols_of o)) o) ∧
  ((∃ id, listeners k =
            [("end", false, MirrorEnd); ("close", false, LogClose);
             ("error", false, ReportError); ("close", true, Unregister id)] ∧
          Goodbye.Handler id 1 (Goodbye.EndSocket s) ∈ Goodbye.handlers (registry w)) ∨
   (listeners k =
      [("end", false, MirrorEnd); ("close", false, LogClose); ("error", false, ReportError)] ∧
    ∀ h, h ∈ Goodbye.handlers (registry w) → Goodbye.action h ≠ Goodbye.EndSocket s)) ∧
  ∀ ev e, ∃ k', sockets (react (SocketEmits s ev e) w).2 !! s = Some k' ∧
    listeners k' =
      if decide (ev = "close")
      then [("end", false, MirrorEnd); ("close", false, LogClose);
            ("error", false, ReportError)]
      else listeners k.
Proof.
  intros Hrun Hk.
  pose proof (run_kept_up o fs inputs) as (_ & _ & Hsock & _).
  pose proof (run_covered o fs inputs) as Hcov.
  rewrite Hrun in Hsock, Hcov. cbn [snd] in Hsock, Hcov.
  destruct (Hsock _ _ Hk) as (? & ? & pending & Hl & Hreg).
  split_and!; [done..| |].
  - destruct pending as [id|].
    + left. exists id. split; [done|]. by apply Hreg.
    + right. split; [done|]. intros h Hh Ha.
      destruct (Hcov h s Hh Ha) as (k' & Hk' & Hin). simplify_eq.
      rewrite Hl in Hin. unfold wiring in Hin. cbn in Hin.
      rewrite !elem_of_cons, elem_of_nil in Hin.
      destruct Hin as [?|[?|[?|[]]]]; discriminate.
  - intros ev e. cbn [react]. rewrite (emit_wired _ _ _ _ _ _ Hk Hl). cbn [snd].
    destruct (decide (ev = "end")) as [->|Hend];
      [|destruct (decide (ev = "close")) as [->|Hclose];
        [|destruct (decide (ev = "error")) as [->|Herror]]].
    + exists (hung_up k). world_simpl. by rewrite lookup_insert_eq.
    + exists (gone k). world_simpl. by rewrite lookup_insert_eq.
    + exists k. split; [|done]. destruct e as [error|]; [case_decide|]; done.
    + by exists k.
Qed.

Lemma live_after_handshake (s : nat) (remote : Buffer) (w : world) :
  sockets w !! s = None → is_Some (sockets (react (Handshake s remote) w).2 !! s) →
  live s (react (Handshake s remote) w).2.
Proof.
  intros Hnew. rewrite react_handshake.
  destruct (server w) as [[[ps o']|]|]; cbn [snd]; try (rewrite Hnew; by intros []).
  destruct (listening w); cbn [snd]; try (rewrite Hnew; by intros []).
  rewrite Hnew.
  destruct (allowed w) as [[|]|keys]; [| |destruct (bool_decide _)]; cbn [snd];
    try (unfold logged; world_simpl; rewrite Hnew; by intros []).
  all: intros _; unfold live, accept; world_simpl; rewrite lookup_insert_eq;
       by eexists _, _.
Qed.

Lemma live_step (o : options) (s : nat) (i : input) (w : world) :
  kept_up o w → live s w → (∀ e, i ≠ SocketEmits s "close" e) →
  live s (react i w).2.
Proof.
  intros (_ & _ & Hsock & _) (k & id & Hk & Hl) Hi.
  destruct i as [buf|s' remote|s' ev e|s' protocol channel].
  - cbn [react]. unfold bind, gets. cbn [fst snd].
    destruct (watching w); [by exists k, id|]. rewrite watcher_callback_run.
    destruct (keys_of buf); by exists k, id.
  - rewrite react_handshake.
    destruct (server w) as [[[ps o']|]|]; try by exists k, id.
    destruct (listening w); [|by exists k, id].
    destruct (sockets w !! s') eqn:Hs'; [by exists k, id|].
    assert (s' ≠ s) as Hne by congruence.
    destruct (allowed w) as [[|]|keys]; [| |destruct (bool_decide _)];
      try by exists k, id.
    all: exists k, id; unfold accept; world_simpl; by rewrite lookup_insert_ne.
  - cbn [react]. destruct (sockets w !! s') as [k'|] eqn:Hk'.
    2:{ unfold emit, bind, gets. cbn [fst snd]. rewrite Hk'. by exists k, id. }
    destruct (Hsock _ _ Hk') as (_ & _ & pending & Hl' & _).
    rewrite (emit_wired _ _ _ _ _ _ Hk' Hl'). cbn [snd].
    destruct (decide (s' = s)) as [->|Hne].
    + assert (ev ≠ "close") as Hev by (intros ->; by apply (Hi e)).
      simplify_eq. repeat case_decide; try done.
      * exists (hung_up k), id. world_simpl. by rewrite lookup_insert_eq.
      * destruct e as [error|]; [case_decide|]; by exists k, id.
      * by exists k, id.
    + repeat case_decide; try (destruct e as [error|]; [case_decide|]);
        try by exists k, id.
      all: exists k, id; world_simpl; by rewrite lookup_insert_ne.
  - rewrite react_negotiate. cbn [snd].
    destruct (_ ≫= paired protocol); by exists k, id.
Qed.

Lemma serve_live (o : options) (s : nat) (inputs : list input) (w : world) :
  kept_up o w → live s w → (∀ e, SocketEmits s "close" e ∉ inputs) →
  kept_up o (serve inputs w).2 ∧ live s (serve inputs w).2.
Proof.
  revert w. induction inputs as [|i inputs IH]; intros w Hw Hlive Hno; [done|].
  cbn [serve]. unfold bind.
  pose proof (react_kept_up o i w Hw) as Hw1.
  pose proof (live_step o s i w Hw Hlive) as Hlive1.
  destruct (react i w) as [[[]|e] w1]; cbn [snd] in *.
  - apply IH; [done| |].
    + apply Hlive1. intros e ->. apply (Hno e). by left.
    + intros e Hin. apply (Hno e). by right.
  - split; [done|]. apply Hlive1. intros e' ->. apply (Hno e'). by left.
Qed.

(** X12: a connection that was let in and has not closed since is ended by
    the shutdown: its teardown action is registered at position 1, and
    every complete drain of the registry starts it and sees it settle. *)
Theorem X12_open_connection_is_ended_at_shutdown (o : options) (fs : gmap string node)
    (before after : list input) (s : nat) (remote : Buffer) (w1 w : world)
    (r : completion unit) :
  (cmd o ;; serve before) (boot fs) = (Normal tt, w1) →
  sockets w1 !! s = None →
  is_Some (sockets (react (Handshake s remote) w1).2 !! s) →
  (react (Handshake s remote) ;; serve after) w1 = (r, w) →
  (∀ e, SocketEmits s "close" e ∉ after) →
  ∃ h, h ∈ Goodbye.handlers (registry w) ∧
       Goodbye.action h = Goodbye.EndSocket s ∧ Goodbye.position h = 1 ∧
       ∀ t, Goodbye.shutdown (Goodbye.handlers (registry w)) t = true →
            Goodbye.Begin (Goodbye.hid h) ∈ t ∧ Goodbye.Settled (Goodbye.hid h) ∈ t.
Proof.
  intros Hrun Hnew Hin Hserve Hno.
  pose proof (run_kept_up o fs before) as Hw1. rewrite Hrun in Hw1. cbn [snd] in Hw1.
  pose proof (live_after_handshake s remote w1 Hnew Hin) as Hlive.
  pose proof (react_kept_up o (Handshake s remote) w1 Hw1) as Hw2.
  assert (kept_up o w ∧ live s w) as [(_ & _ & Hsock & _) (k & id & Hk & Hl)].
  { unfold bind in Hserve.
    destruct (react (Handshake s remote) w1) as [[[]|e] w2]; cbn [snd] in *.
    - replace w with (serve after w2).2 by by rewrite Hserve.
      by apply serve_live.
    - by simplify_eq. }
  destruct (Hsock _ _ Hk) as (_ & _ & pending & Hl' & Hreg).
  assert (pending = Some id) as ->.
  { rewrite Hl in Hl'. unfold wiring in Hl'. destruct pending; by simplify_eq. }
  exists (teardown_of s id). split_and!; [by apply Hreg|done..|].
  intros t Ht. apply (shutdown_begins _ _ _ Ht). by apply Hreg.
Qed.

(** X13: an ['error'] on a connection of a run never stops the server.
    With the code ECONNRESET or ETIMEDOUT it leaves no trace; any other
    error is reported with one call of [console.error]; in both cases the
    connection and its teardown action stay as they are. *)
Theorem X13_socket_errors_are_absorbed (o : options) (fs : gmap string node)
    (inputs : list input) (r : completion unit) (w : world) (s : nat) (err : error) :
  (cmd o ;; serve inputs) (boot fs) = (r, w) →
  is_Some (sockets w !! s) →
  react (SocketEmits s "error" (Some err)) w =
  (Normal tt,
   if decide (code err = Some "ECONNRESET" ∨ code err = Some "ETIMEDOUT") then w
   else with_stderr (stderr w ++ [default "undefined" (code err) +:+ " " +:+ message err]) w).
Proof.
  intros Hrun [k Hk].
  pose proof (run_kept_up o fs inputs) as (_ & _ & Hsock & _).
  rewrite Hrun in Hsock. cbn [snd] in Hsock.
  destruct (Hsock _ _ Hk) as (_ & _ & pending & Hl & _).
  cbn [react]. rewrite (emit_wired _ _ _ _ _ _ Hk Hl).
  by repeat (case_decide; simplify_eq).
Qed.

(** X14: when the peer ends its side of a connection of a run, the server
    ends its own side, and does nothing else: the connection stays
    registered until it closes. *)
Theorem X14_end_is_answered_with_end (o : options) (fs : gmap string node)
    (inputs : list input) (r : completion unit) (w : world) (s : nat) (k : socket)
    (e : option error) :
  (cmd o ;; serve inputs) (boot fs) = (r, w) →
  sockets w !! s = Some k →
  react (SocketEmits s "end" e) w =
  (Normal tt,
   with_sockets
     (<[s := Socket (remotePublicKey k) (listeners k) (keepAlive k) true (muxed k)]>
        (sockets w)) w).
Proof.
  intros Hrun Hk.
  pose proof (run_kept_up o fs inputs) as (_ & _ & Hsock & _).
  rewrite Hrun in Hsock. cbn [snd] in Hsock.
  destruct (Hsock _ _ Hk) as (_ & _ & pending & Hl & _).
  cbn [react]. rewrite (emit_wired _ _ _ _ _ _ Hk Hl).
  by rewrite decide_True.
Qed.

(** X15: the close of a connection of a run is logged with the key of its
    peer, in one line on the standard output; should the socket emit
    ['close'] again, the line is printed again and nothing else happens. *)
Theorem X15_close_is_logged_with_the_peer (o : options) (fs : gmap string node)
    (inputs : list input) (r : completion unit) (w : world) (s : nat) (k : socket)
    (e e' : option error) :
  (cmd o ;; serve inputs) (boot fs) = (r, w) →
  sockets w !! s = Some k →
  ∃ w', react (SocketEmits s "close" e) w = (Normal tt, w') ∧
        stdout w' = stdout w ++
          ["Connection closed " +:+ HypercoreId_encode (remotePublicKey k)] ∧
        stderr w' = stderr w ∧ acts w' = acts w ∧
        react (SocketEmits s "close" e') w' =
          (Normal tt,
           logged ("Connection closed " +:+ HypercoreId_encode (remotePublicKey k)) w').
Proof.
  intros Hrun Hk.
  pose proof (run_kept_up o fs inputs) as (_ & _ & Hsock & _).
  rewrite Hrun in Hsock. cbn [snd] in Hsock.
  destruct (Hsock _ _ Hk) as (_ & _ & pending & Hl & _).
  cbn [react]. rewrite (emit_wired _ _ _ _ _ _ Hk Hl).
  rewrite decide_False, decide_True by done.
  eexists. split; [reflexivity|]. world_simpl. split_and!; [done..|].
  erewrite (emit_wired _ _ _ _ (gone k) None);
    [|by world_simpl; rewrite lookup_insert_eq|done].
  rewrite decide_False, decide_True by done.
  f_equal. unfold logged, closed_line, gone. destruct w. world_simpl.
  by rewrite insert_insert_eq.
Qed.

(** X16: what stands in the way of the authorized-peers file is an error
    of [readAuthorizedPeers], not an empty list.  A directory under the
    name of the file makes the read throw EISDIR, which the [catch] throws
    again; a regular file in the place of its directory makes the creation
    throw, after the notice was printed, and nothing is created. *)
Theorem X16_obstructed_file_is_an_error (p : string) (w : world) :
  (files w !! p = Some Dir →
   readAuthorizedPeers (Filename p) w =
   (Throw EISDIR, with_fs_calls (fs_calls w ++ [("existsSync", p); ("readFileSync", p)]) w)) ∧
  (∀ c, files w !! p = None → files w !! path_dirname p = Some (File c) →
     ∃ e w', readAuthorizedPeers (Filename p) w = (Throw e, w') ∧
             files w' = files w ∧
             stdout w' = stdout w ++ ["Notice: creating default firewall " +:+ p]).
Proof.
  split.
  - intros Hp. apply wp_equal. unfold readAuthorizedPeers. destruct w. world_simpl in *.
    do 3 wp_go. rewrite (proj2 (existsSync_true _ _)) by (rewrite Hp; eauto).
    cbn [negb when]. repeat wp_go. unfold readFileSync. rewrite Hp.
    wp_go; [done|]. wp_go. by rewrite <- app_assoc.
  - intros c Hp Hd.
    cut (wp (readAuthorizedPeers (Filename p)) (λ r w', (∃ e, r = Throw e) ∧
           files w' = files w ∧
           stdout w' = stdout w ++ ["Notice: creating default firewall " +:+ p]) w).
    { unfold wp. destruct (readAuthorizedPeers _ w) as [r w']. cbn.
      intros ((e & ->) & ? & ?). by exists e, w'. }
    unfold readAuthorizedPeers. destruct w. world_simpl in *.
    do 3 wp_go. rewrite (proj2 (existsSync_false _ _)) by done. cbn [negb].
    do 4 wp_go. do 2 wp_go. unfold mkdirSync_recursive. rewrite Hd. cbn [fst snd].
    split_and!; [by eexists|done..].
Qed.

Lemma close_after_accept (ps : array) (o : options) (s : nat) (remote : Buffer)
    (e : option error) (w : world) :
  orderly (registry w) →
  Goodbye.handlers (registry (emit s "close" e (accept ps o s remote w)).2) =
  Goodbye.handlers (registry w).
Proof.
  intros [_ Hall].
  erewrite (emit_wired s "close" e (accept ps o s remote w) _
              (Some (Goodbye.next_hid (registry w))));
    [|by unfold accept; world_simpl; rewrite lookup_insert_eq|done].
  rewrite decide_False, decide_True by done. unfold accept. world_simpl.
  cbn [Goodbye.goodbye snd Goodbye.unregister Goodbye.handlers Goodbye.next_hid].
  rewrite filter_app, filter_cons_False, filter_nil, app_nil_r by (cbn; auto).
  revert Hall. generalize (Goodbye.next_hid (registry w)) as n.
  generalize (Goodbye.handlers (registry w)) as hs.
  induction hs as [|h hs IH]; intros n Hall; [done|].
  apply Forall_cons in Hall as [[Hh _] Hhs].
  rewrite filter_cons_True by (cbn; lia). f_equal. by apply IH.
Qed.

(** X17: a connection that comes and goes leaves nothing behind for the
    shutdown: after the handshake of a new peer and the close of its
    socket, the registry holds the teardown actions that it held before. *)
Theorem X17_closed_connection_leaves_no_teardown (o : options) (fs : gmap string node)
    (inputs : list input) (w : world) (s : nat) (remote : Buffer) (e : option error) :
  (cmd o ;; serve inputs) (boot fs) = (Normal tt, w) →
  sockets w !! s = None →
  Goodbye.handlers
    (registry ((react (Handshake s remote) ;; react (SocketEmits s "close" e)) w).2) =
  Goodbye.handlers (registry w).
Proof.
  intros Hrun Hnew.
  pose proof (run_kept_up o fs inputs) as (_ & Hord & _).
  rewrite Hrun in Hord. cbn [snd] in Hord.
  assert (∀ w', sockets w' = sockets w → registry w' = registry w →
            Goodbye.handlers (registry (emit s "close" e w').2) =
            Goodbye.handlers (registry w)) as Hquiet.
  { intros w' Hs Hr. unfold emit, bind, gets. cbn [fst snd]. rewrite Hs, Hnew. cbn.
    by rewrite Hr. }
  unfold bind. rewrite react_handshake. cbn [react].
  destruct (server w) as [[[ps o']|]|]; try by apply Hquiet.
  destruct (listening w); [|by apply Hquiet].
  rewrite Hnew.
  destruct (allowed w) as [[|]|keys]; [|done|destruct (bool_decide _)];
    try by apply Hquiet.
  all: by apply close_after_accept.
Qed.

Lemma react_announced (o : options) (i : input) (w : world) :
  kept_up o w → announced w → announced (react i w).2.
Proof.
  intros (_ & _ & Hsock & _) Hw.
  destruct i as [buf|s remote|s ev e|s protocol channel].
  - cbn [react]. unfold bind, gets. cbn [fst snd].
    destruct (watching w); [done|]. rewrite watcher_callback_run.
    by destruct (keys_of buf).
  - rewrite react_handshake.
    destruct (server w) as [[[ps o']|]|]; try done.
    destruct (listening w); [|done].
    destruct (sockets w !! s) eqn:Hs; [done|].
    assert (announced (accept ps o' s remote w)) as Haccept.
    { intros s' k'. unfold accept, logged. world_simpl. rewrite elem_of_app.
      destruct (decide (s = s')) as [<-|Hne].
      - rewrite lookup_insert_eq. intros [= <-]. right. by apply list_elem_of_singleton.
      - rewrite lookup_insert_ne by done. intros Hk. left. by apply (Hw s'). }
    destruct (allowed w) as [[|]|keys]; [| |destruct (bool_decide _)]; try done.
    intros s' k' Hk'. unfold logged. world_simpl. apply elem_of_app. left. by apply (Hw s').
  - cbn [react]. destruct (sockets w !! s) as [k|] eqn:Hk.
    2:{ unfold emit, bind, gets. cbn [fst snd]. by rewrite Hk. }
    destruct (Hsock _ _ Hk) as (_ & _ & pending & Hl & _).
    rewrite (emit_wired _ _ _ _ _ _ Hk Hl). cbn [snd].
    repeat case_decide; try done.
    + intros s' k'. world_simpl. destruct (decide (s = s')) as [<-|Hne].
      * rewrite lookup_insert_eq. intros [= <-]. cbn. by apply (Hw s k).
      * rewrite lookup_insert_ne by done. apply Hw.
    + intros s' k'. unfold logged. world_simpl. rewrite elem_of_app.
      destruct (decide (s = s')) as [<-|Hne].
      * rewrite lookup_insert_eq. intros [= <-]. left. cbn. by apply (Hw s k).
      * rewrite lookup_insert_ne by done. intros Hk'. left. by apply (Hw s').
    + destruct e as [error|]; [case_decide|]; done.
  - rewrite react_negotiate. cbn [snd]. by destruct (_ ≫= paired protocol).
Qed.

(** X18: no connection without the consent of the firewall on record: for
    every socket of a run, the line ['Firewall allowed:'] with the key of
    its peer is on the standard output. *)
Theorem X18_every_connection_was_allowed (o : options) (fs : gmap string node)
    (inputs : list input) (r : completion unit) (w : world) (s : nat) (k : socket) :
  (cmd o ;; serve inputs) (boot fs) = (r, w) →
  sockets w !! s = Some k →
  "Firewall allowed: " +:+ HypercoreId_encode (remotePublicKey k) ∈ stdout w.
Proof.
  intros Hrun Hk.
  cut (kept_up o w ∧ announced w). { intros [_ Hw]. by apply (Hw s). }
  replace w with ((cmd o ;; serve inputs) (boot fs)).2 by by rewrite Hrun.
  apply (run_keeps (λ w, kept_up o w ∧ announced w)).
  - split; [apply cmd_kept_up|].
    destruct (cmd_keeps o (boot fs)) as (Hs & _). intros s' k'. by rewrite Hs.
  - intros i w' [Hw' Ha]. split; [by apply react_kept_up|by eapply react_announced].
Qed.

End Lifecycle.


(** ** The claims at work on the demonstration platform *)

Import Demo.

Lemma C1_witness :
  let w := ((cmd defaults ;; serve session) (boot home)).2 in
  ∃ keys, allowed w = AList keys ∧
    onFirewall carol w =
      if bool_decide (carol ∈ keys)
      then (Normal false, logged ("Firewall allowed: " +:+ HypercoreId_encode carol) w)
      else (Normal true, logged ("Firewall denied: " +:+ HypercoreId_encode carol) w).
Proof.
  apply (C1_firewall_decision defaults home session _ carol). vm_compute. reflexivity.
Defined.

Lemma C2_witness :
  let w := ((cmd shell_only ;; serve upload_attempt) (boot home)).2 in
  (∀ s k m, sockets w !! s = Some k → muxed k = Some m → paired "hypershell-upload" m = None) ∧
  (∀ i s x, Construct i UploadServer s x ∉ acts w).
Proof.
  apply (C2_disabled_protocol_never_bound shell_only home upload_attempt (Normal tt) _
           "upload").
  - vm_compute. reflexivity.
  - compute_done.
  - compute_done.
Defined.

(** C3 fails as stated: alice is on the list and her handshake is let in;
    once the file has changed to a content with a line that is no key, the
    list is not in service any more: the process has ended with the
    exception, and the handshake of alice is not decided. *)
Lemma C3_counterexample :
  let w := (cmd defaults (boot home)).2 in
  allowed w = AList [alice; bob] ∧
  is_Some (sockets (serve [Handshake 0 alice] w).2 !! 0) ∧
  serve [FileChange bad_file; Handshake 0 alice] w = (Throw Invalid_key, w).
Proof. vm_compute. split_and!; [done|by eexists|done]. Qed.

Lemma C3_witness :
  let w := (cmd defaults (boot home)).2 in
  (∃ keys, Forall2 (λ l key, key_of_line l = Some key) (Configs.record_lines peers_file) keys ∧
           watcher_callback peers_file w = (Normal tt, with_allowed (AList keys) w)) ∧
  (∃ e, watcher_callback bad_file w = (Throw e, w) ∧
        serve [FileChange bad_file; Handshake 0 alice] w = (Throw e, w)).
Proof.
  split.
  - apply (proj1 (C3_reload_all_or_nothing peers_file (cmd defaults (boot home)).2)).
    compute_done.
  - destruct (proj2 (C3_reload_all_or_nothing bad_file (cmd defaults (boot home)).2))
      as (e & Hthrows & Hends); [compute_done|].
    exists e. split; [exact Hthrows|].
    apply (Hends defaults home [] [Handshake 0 alice]); [reflexivity|].
    vm_compute. reflexivity.
Defined.

Lemma C4_witness :
  Goodbye.Begin 2 ∈ a_drain ∧
  ∀ t1 t2, a_drain = t1 ++ Goodbye.Begin 2 :: t2 → Goodbye.Settled 4 ∈ t1.
Proof.
  apply (C4_shutdown_in_tier_order defaults home two_peers (Normal tt)
           ((cmd defaults ;; serve two_peers) (boot home)).2 a_drain
           (Goodbye.Handler 4 1 (Goodbye.EndSocket 1))
           (Goodbye.Handler 2 2 Goodbye.CloseServer)).
  - vm_compute. reflexivity.
  - vm_compute. reflexivity.
  - compute_done.
  - compute_done.
  - left. split; [by exists 1|reflexivity].
Defined.


Lemma C6_witness :
  (∃ w', readAuthorizedPeers (Filename "/home/op/.hypershell/authorized_peers")
           (boot fresh_home) = (Normal [], w') ∧
         files w' !! "/home/op/.hypershell/authorized_peers" = Some (File default_firewall) ∧
         Configs.record_lines default_firewall = []) ∧
  ((∃ e w', readAuthorizedPeers (Filename "/home/op/.hypershell/authorized_peers")
              (boot spoilt_home) = (Throw e, w')) ∧
   ∀ o, disableFirewall o = false →
        path_resolve (firewall o) = "/home/op/.hypershell/authorized_peers" →
        ∃ e w', cmd o (boot spoilt_home) = (Throw e, w') ∧
                dht w' = dht (boot spoilt_home) ∧ server w' = server (boot spoilt_home) ∧
                listening w' = listening (boot spoilt_home)) ∧
  (∃ keys w', Forall2 (λ l key, key_of_line l = Some key)
                      (Configs.record_lines peers_file) keys ∧
              readAuthorizedPeers (Filename "/home/op/.hypershell/authorized_peers")
                (boot home) = (Normal keys, w') ∧
              files w' = files (boot home)).
Proof.
  split; [|split].
  - apply (proj1 (C6_read_at_startup "/home/op/.hypershell/authorized_peers"
                    (boot fresh_home))); compute_done.
  - apply (proj1 (proj2 (C6_read_at_startup "/home/op/.hypershell/authorized_peers"
                           (boot spoilt_home))) bad_file); compute_done.
  - apply (proj2 (proj2 (C6_read_at_startup "/home/op/.hypershell/authorized_peers"
                           (boot home))) peers_file); compute_done.
Defined.

Lemma C7_witness :
  react (Negotiate 0 "hypershell" Null) connected_world =
    (Normal tt,
     with_acts (acts connected_world ++ [Construct 0 ShellServer 0 None] ++ []) connected_world) ∧
  react (Negotiate 0 "hypershell" (Object 5)) connected_world =
    (Normal tt,
     with_acts (acts connected_world ++ [Construct 0 ShellServer 0 None] ++ [Open 0])
               connected_world).
Proof.
  split.
  - eapply (C7_one_handler_per_negotiation 0 _ _ "hypershell"
              (Notify ShellServer None) Null connected_world); vm_compute; reflexivity.
  - eapply (C7_one_handler_per_negotiation 0 _ _ "hypershell"
              (Notify ShellServer None) (Object 5) connected_world); vm_compute; reflexivity.
Defined.

(** C8 fails as stated: allowed without enforcement and allowed on a match,
    the key of alice is logged with the same line. *)
Lemma C8_counterexample :
  (onFirewall alice open_door).1 = Normal false ∧
  (onFirewall alice listed).1 = Normal false ∧
  stdout (onFirewall alice open_door).2 = stdout (onFirewall alice listed).2 ∧
  stdout (onFirewall alice listed).2 =
    ["Firewall allowed: 0a0a0a0a0a0a0a0a0a0a0a0a0a0a0a0a0a0a0a0a0a0a0a0a0a0a0a0a0a0a0a0a"].
Proof. vm_compute. by split_and!. Qed.

Lemma C8_witness :
  onFirewall alice open_door =
    (Normal false, logged ("Firewall allowed: " +:+ HypercoreId_encode alice) open_door) ∧
  onFirewall alice listed =
    (Normal false, logged ("Firewall allowed: " +:+ HypercoreId_encode alice) listed).
Proof.
  split.
  - apply (C8_allow_is_logged_alike alice [] open_door). by left.
  - apply (C8_allow_is_logged_alike alice [alice] listed). right. split; [done|compute_done].
Defined.

(** C9 fails as stated: with all four protocols named by [--protocol], the
    server runs the full default set and prints the notice of restricted
    protocols. *)
Lemma C9_counterexample :
  items (protocols_of all_four) = items PROTOCOLS ∧
  (cmd all_four (boot home)).1 = Normal tt ∧
  stdout (cmd all_four (boot home)).2 =
    ["Running server with restricted protocols";
     "Server key: 0101010101010101010101010101010101010101010101010101010101010101";
     ""].
Proof. vm_compute. by split_and!. Qed.

Lemma C9_witness :
  ∃ keyPair before,
    listening (cmd all_four (boot home)).2 = Some keyPair ∧
    stdout (cmd all_four (boot home)).2 = before ++
      ["Running server with restricted protocols";
       "Server key: " +:+ HypercoreId_encode (publicKey keyPair)] ++ [""].
Proof.
  apply (C9_banner_follows_the_option all_four (boot home)). vm_compute. reflexivity.
Defined.

Lemma C10_witness :
  let w := ((cmd no_firewall ;; serve session) (boot fresh_home)).2 in
  Forall (λ c, c.2 ≠ path_resolve (firewall no_firewall)) (fs_calls w) ∧
  files w !! path_resolve (firewall no_firewall) =
    fresh_home !! path_resolve (firewall no_firewall) ∧
  watching w = [] ∧
  (∀ h, h ∈ Goodbye.handlers (registry w) → Goodbye.action h ≠ Goodbye.UnwatchFirewall) ∧
  ∀ remote, (onFirewall remote w).1 = Normal false.
Proof.
  apply (C10_disabled_firewall_leaves_the_store no_firewall fresh_home session (Normal tt)
           ((cmd no_firewall ;; serve session) (boot fresh_home)).2).
  - reflexivity.
  - compute_done.
  - vm_compute. reflexivity.
Defined.

(** ** The further properties at work *)

Import Cases.

Lemma X1_witness :
  files ((cmd defaults ;; serve session) (boot fresh_home)).2 !! "/home/op/.hypershell/peer" =
  Some (File seed_text).
Proof.
  apply (X1_existing_files_are_kept defaults fresh_home session (Normal tt)
           ((cmd defaults ;; serve session) (boot fresh_home)).2).
  - vm_compute. reflexivity.
  - vm_compute. reflexivity.
Defined.

Lemma X2_witness :
  let w := ((cmd defaults ;; serve session) (boot fresh_home)).2 in
  fs_calls w = fs_calls (cmd defaults (boot fresh_home)).2 ∧
  Forall (λ c, c.2 = path_resolve (f defaults) ∨ c.2 = path_resolve (firewall defaults) ∨
               c.2 = path_dirname (path_resolve (firewall defaults))) (fs_calls w).
Proof.
  apply (X2_fs_calls_are_confined defaults fresh_home session (Normal tt)).
  vm_compute. reflexivity.
Defined.

Lemma X3_witness :
  ∃ seed, HypercoreId_decode (trim padded_text) = Some seed ∧
          listening (cmd defaults (boot padded_home)).2 = Some (DHT_keyPair seed) ∧
          listen_failure (DHT_keyPair seed) = None.
Proof.
  apply (X3_identity_from_key_file defaults (boot padded_home)).
  - vm_compute. reflexivity.
  - vm_compute. reflexivity.
Defined.

Lemma X4_witness :
  ∃ e w, cmd defaults (boot garbled_home) = (Throw e, w) ∧
         dht w = dht (boot garbled_home) ∧ server w = server (boot garbled_home) ∧
         listening w = listening (boot garbled_home) ∧
         ∀ h, h ∈ Goodbye.handlers (registry w) →
              h ∈ Goodbye.handlers (registry (boot garbled_home)) ∨
              Goodbye.action h = Goodbye.UnwatchFirewall.
Proof.
  apply (X4_corrupt_key_file_stops_the_startup defaults (boot garbled_home) "not a seed").
  - vm_compute. reflexivity.
  - vm_compute. reflexivity.
Defined.

Lemma X5_witness :
  ∃ e' w, @cmd offline defaults (boot home) = (Throw e', w) ∧
    listening w = listening (boot home) ∧
    (stdout w = stdout (boot home) ∨
     stdout w = stdout (boot home) ++ [notice (@path_resolve offline (firewall defaults))]) ∧
    (dht w = dht (boot home) ∨
     (e' = Error (Some "EADDRINUSE") "address already in use" ∧
      dht w = Some (testnet defaults) ∧
      server w = Some (Some (protocols_of defaults, defaults)) ∧
      ∃ i j, Goodbye.Handler i 3 Goodbye.DestroyNode ∈ Goodbye.handlers (registry w) ∧
             Goodbye.Handler j 2 Goodbye.CloseServer ∈ Goodbye.handlers (registry w))).
Proof.
  apply (@X5_listen_failure_is_passed_on offline defaults (boot home) seed_text
           (replicate 32 Byte.x01)).
  - vm_compute. reflexivity.
  - vm_compute. reflexivity.
  - reflexivity.
Defined.

Lemma X6_witness :
  let w := (cmd restricted (boot home)).2 in
  (λ h, (Goodbye.action h, Goodbye.position h)) <$> Goodbye.handlers (registry w) =
    startup_teardowns restricted ∧
  dht w = Some (testnet restricted) ∧
  server w = Some (Some (protocols_of restricted, restricted)) ∧
  watching w = (if disableFirewall restricted then []
                else [path_resolve (firewall restricted)]) ∧
  sockets w = ∅ ∧ acts w = [].
Proof.
  apply (X6_what_the_startup_leaves restricted home). vm_compute. reflexivity.
Defined.

Lemma X7_witness :
  let w := (cmd defaults (boot fresh_home)).2 in
  files w !! path_resolve (firewall defaults) = Some (File default_firewall) ∧
  allowed w = AList [] ∧
  ∀ remote, onFirewall remote w =
    (Normal true, logged ("Firewall denied: " +:+ HypercoreId_encode remote) w).
Proof.
  apply (X7_new_firewall_admits_nobody defaults fresh_home).
  - reflexivity.
  - vm_compute. reflexivity.
  - compute_done.
  - vm_compute. reflexivity.
Defined.

Lemma X8_witness :
  let w := ((cmd defaults ;; serve two_peers) (boot home)).2 in
  (react (FileChange carol_only) ;; onFirewall alice) w =
  if bool_decide (alice ∈ [carol])
  then (Normal false, logged ("Firewall allowed: " +:+ HypercoreId_encode alice)
                             (with_allowed (AList [carol]) w))
  else (Normal true, logged ("Firewall denied: " +:+ HypercoreId_encode alice)
                            (with_allowed (AList [carol]) w)).
Proof.
  apply (X8_reload_decides_the_next_handshake defaults home two_peers).
  - reflexivity.
  - vm_compute. reflexivity.
  - vm_compute. reflexivity.
Defined.

Lemma X9_witness :
  let w := ((cmd restricted ;; serve tunnel_session) (boot home)).2 in
  react (Negotiate 0 "hypershell-tunnel-local" (Object 4)) w =
  (Normal tt,
   with_acts (acts w ++
                [Construct (length (acts w)) LocalTunnelServer 0
                   (restrictions_for restricted LocalTunnelServer)] ++
                (if truthy (Object 4) then [Open (length (acts w))] else [])) w).
Proof.
  apply (X9_enabled_protocol_is_served restricted home tunnel_session (Normal tt) _ 0
           "tunnel").
  - vm_compute. reflexivity.
  - eexists. vm_compute. reflexivity.
  - compute_done.
  - compute_done.
Defined.

Lemma X10_witness :
  let w := ((cmd restricted ;; serve tunnel_session) (boot home)).2 in
  Construct 0 LocalTunnelServer 0 (Some (Some ["127.0.0.1"], Some ["22"])) ∈ acts w ∧
  Construct 2 ShellServer 0 None ∈ acts w ∧
  Some (Some ["127.0.0.1"], Some ["22"]) = Some (tunnelHost restricted, tunnelPort restricted) ∧
  None = (None : option restrictions).
Proof.
  split; [compute_done|]. split; [compute_done|]. split.
  - apply (X10_restrictions_reach_the_tunnel_only restricted home tunnel_session (Normal tt)
             ((cmd restricted ;; serve tunnel_session) (boot home)).2 0 LocalTunnelServer 0).
    + vm_compute. reflexivity.
    + compute_done.
  - apply (X10_restrictions_reach_the_tunnel_only restricted home tunnel_session (Normal tt)
             ((cmd restricted ;; serve tunnel_session) (boot home)).2 2 ShellServer 0).
    + vm_compute. reflexivity.
    + compute_done.
Defined.

Lemma X11_witness :
  ∃ k, sockets connected_world !! 1 = Some k ∧
    keepAlive k = Some 5000 ∧
    muxed k = Some (bindings_of (items (protocols_of defaults)) defaults) ∧
    ((∃ id, listeners k =
              [("end", false, MirrorEnd); ("close", false, LogClose);
               ("error", false, ReportError); ("close", true, Unregister id)] ∧
            Goodbye.Handler id 1 (Goodbye.EndSocket 1) ∈
              Goodbye.handlers (registry connected_world)) ∨
     (listeners k =
        [("end", false, MirrorEnd); ("close", false, LogClose);
         ("error", false, ReportError)] ∧
      ∀ h, h ∈ Goodbye.handlers (registry connected_world) →
           Goodbye.action h ≠ Goodbye.EndSocket 1)) ∧
    ∀ ev e, ∃ k', sockets (react (SocketEmits 1 ev e) connected_world).2 !! 1 = Some k' ∧
      listeners k' =
        if decide (ev = "close")
        then [("end", false, MirrorEnd); ("close", false, LogClose);
              ("error", false, ReportError)]
        else listeners k.
Proof.
  eexists. split; [vm_compute; reflexivity|].
  apply (X11_every_connection_is_set_up defaults home two_peers (Normal tt)
           connected_world 1).
  - vm_compute. reflexivity.
  - vm_compute. reflexivity.
Defined.

Lemma X12_witness :
  let w1 := ((cmd defaults ;; serve [Handshake 0 alice]) (boot home)).2 in
  let w := ((react (Handshake 1 bob) ;; serve busy_session) w1).2 in
  ∃ h, h ∈ Goodbye.handlers (registry w) ∧
       Goodbye.action h = Goodbye.EndSocket 1 ∧ Goodbye.position h = 1 ∧
       ∀ t, Goodbye.shutdown (Goodbye.handlers (registry w)) t = true →
            Goodbye.Begin (Goodbye.hid h) ∈ t ∧ Goodbye.Settled (Goodbye.hid h) ∈ t.
Proof.
  apply (X12_open_connection_is_ended_at_shutdown defaults home [Handshake 0 alice]
           busy_session 1 bob
           ((cmd defaults ;; serve [Handshake 0 alice]) (boot home)).2 _ (Normal tt)).
  - vm_compute. reflexivity.
  - vm_compute. reflexivity.
  - eexists. vm_compute. reflexivity.
  - vm_compute. reflexivity.
  - intros e. unfold busy_session. rewrite !elem_of_cons, elem_of_nil.
    intros [?|[?|[?|[]]]]; discriminate.
Defined.

Lemma X13_witness :
  react (SocketEmits 0 "error" (Some reset)) connected_world =
    (Normal tt,
     if decide (code reset = Some "ECONNRESET" ∨ code reset = Some "ETIMEDOUT")
     then connected_world
     else with_stderr (stderr connected_world ++
                       [default "undefined" (code reset) +:+ " " +:+ message reset])
                      connected_world) ∧
  react (SocketEmits 0 "error" (Some broken_pipe)) connected_world =
    (Normal tt,
     if decide (code broken_pipe = Some "ECONNRESET" ∨ code broken_pipe = Some "ETIMEDOUT")
     then connected_world
     else with_stderr (stderr connected_world ++
                       [default "undefined" (code broken_pipe) +:+ " " +:+
                        message broken_pipe])
                      connected_world).
Proof.
  split.
  - apply (X13_socket_errors_are_absorbed defaults home two_peers (Normal tt)
             connected_world 0 reset); [vm_compute; reflexivity|].
    eexists. vm_compute. reflexivity.
  - apply (X13_socket_errors_are_absorbed defaults home two_peers (Normal tt)
             connected_world 0 broken_pipe); [vm_compute; reflexivity|].
    eexists. vm_compute. reflexivity.
Defined.

Lemma X14_witness :
  ∃ k, sockets connected_world !! 0 = Some k ∧
    react (SocketEmits 0 "end" None) connected_world =
    (Normal tt,
     with_sockets
       (<[0 := Socket (remotePublicKey k) (listeners k) (keepAlive k) true (muxed k)]>
          (sockets connected_world)) connected_world).
Proof.
  eexists. split; [vm_compute; reflexivity|].
  apply (X14_end_is_answered_with_end defaults home two_peers (Normal tt)
           connected_world 0).
  - vm_compute. reflexivity.
  - vm_compute. reflexivity.
Defined.

Lemma X15_witness :
  ∃ k, sockets connected_world !! 0 = Some k ∧
  ∃ w', react (SocketEmits 0 "close" None) connected_world = (Normal tt, w') ∧
        stdout w' = stdout connected_world ++
          ["Connection closed " +:+ HypercoreId_encode (remotePublicKey k)] ∧
        stderr w' = stderr connected_world ∧ acts w' = acts connected_world ∧
        react (SocketEmits 0 "close" None) w' =
          (Normal tt,
           logged ("Connection closed " +:+ HypercoreId_encode (remotePublicKey k)) w').
Proof.
  eexists. split; [vm_compute; reflexivity|].
  apply (X15_close_is_logged_with_the_peer defaults home two_peers (Normal tt)
           connected_world 0).
  - vm_compute. reflexivity.
  - vm_compute. reflexivity.
Defined.

Lemma X16_witness :
  readAuthorizedPeers (Filename "/home/op/.hypershell/authorized_peers") (boot blocked_home) =
    (Throw EISDIR,
     with_fs_calls (fs_calls (boot blocked_home) ++
                    [("existsSync", "/home/op/.hypershell/authorized_peers");
                     ("readFileSync", "/home/op/.hypershell/authorized_peers")])
                   (boot blocked_home)) ∧
  ∃ e w', readAuthorizedPeers (Filename "/home/op/.hypershell/authorized_peers")
            (boot misplaced_home) = (Throw e, w') ∧
          files w' = files (boot misplaced_home) ∧
          stdout w' = stdout (boot misplaced_home) ++
            ["Notice: creating default firewall /home/op/.hypershell/authorized_peers"].
Proof.
  split.
  - apply (proj1 (X16_obstructed_file_is_an_error
                    "/home/op/.hypershell/authorized_peers" (boot blocked_home))).
    vm_compute. reflexivity.
  - apply (proj2 (X16_obstructed_file_is_an_error
                    "/home/op/.hypershell/authorized_peers" (boot misplaced_home)) "").
    + vm_compute. reflexivity.
    + vm_compute. reflexivity.
Defined.

Lemma X17_witness :
  Goodbye.handlers
    (registry ((react (Handshake 2 alice) ;; react (SocketEmits 2 "close" None))
                 connected_world).2) =
  Goodbye.handlers (registry connected_world).
Proof.
  apply (X17_closed_connection_leaves_no_teardown defaults home two_peers connected_world 2
           alice None).
  - vm_compute. reflexivity.
  - vm_compute. reflexivity.
Defined.

Lemma X18_witness :
  ∃ k, sockets connected_world !! 1 = Some k ∧
    "Firewall allowed: " +:+ HypercoreId_encode (remotePublicKey k) ∈ stdout connected_world.
Proof.
  eexists. split; [vm_compute; reflexivity|].
  apply (X18_every_connection_was_allowed defaults home two_peers (Normal tt)
           connected_world 1).
  - vm_compute. reflexivity.
  - vm_compute. reflexivity.
Defined.
